(** * Call-Analyzer: the analysis dispatch of [app.py]

    A shallow embedding of the analysis core of [app.py]: the offline
    summariser [local_fallback], the reply parser at the end of
    [call_groq_for_json], the client factory [make_groq_client] and the
    dispatch of the Analyze handler, with the Python primitives they rest on
    ([str.strip], [str.lower], [str.count], [str.split], [re.split],
    [re.search], [json.loads]).

    A Python [str] is a sequence of Unicode code points: here a [list N].
    Exceptions are explicit ([exc]); the Streamlit warnings, the construction
    of the Groq client and the remote request are events appended to a log
    that is threaded through the dispatcher.  What the code cannot see of its
    surroundings is a parameter: the behaviour of the Groq library and the
    recursion and integer-digit limits of the interpreter ([env]), and the
    fate of each write to the record file ([Handler.on_analyze]). *)

From Stdlib Require Import String Ascii.
From Stdlib Require Import NArith List Bool Arith Lia.
Import ListNotations.

Set Warnings "-register-all".

(** ** Python strings *)

Module Py.

Definition char := N.
Definition str := list char.

(** An ASCII literal as code points. *)
Definition lit (s : string) : str := map N_of_ascii (list_ascii_of_string s).

(** The same, with every apostrophe standing for a double quote (code point
    34), so that JSON text can be written down. *)
Definition dq (s : string) : str :=
  map (fun c => if (c =? 39)%N then 34%N else c) (lit s).

Definition between (lo hi c : N) : bool := ((lo <=? c) && (c <=? hi))%N.

(** [str.isspace] on one code point; the same set is the [\s] class of [re]
    on [str] patterns. *)
Definition isspace (c : char) : bool :=
  between 9 13 c || between 28 32 c || (c =? 133)%N || (c =? 160)%N
  || (c =? 5760)%N || between 8192 8202 c || (c =? 8232)%N || (c =? 8233)%N
  || (c =? 8239)%N || (c =? 8287)%N || (c =? 12288)%N.

Fixpoint dropwhile (p : char -> bool) (s : str) : str :=
  match s with
  | [] => []
  | c :: r => if p c then dropwhile p r else s
  end.

Definition lstrip (s : str) : str := dropwhile isspace s.
Definition rstrip (s : str) : str := rev (dropwhile isspace (rev s)).

(** [s.strip()] *)
Definition strip (s : str) : str := rstrip (lstrip s).

(** [str.lower] on one code point.  Exact below 256 and on the two code points
    above whose lower case holds an ASCII letter (U+0130 and the Kelvin sign
    U+212A); every other code point is left as it is, where Python yields
    code points outside ASCII.  [local_fallback] only searches the lowered
    text for ASCII keywords, which this does not affect. *)
Definition lower_char (c : char) : str :=
  if between 65 90 c || between 192 214 c || between 216 222 c then [(c + 32)%N]
  else if (c =? 304)%N then [105%N; 775%N]
  else if (c =? 8490)%N then [107%N]
  else [c].

(** [s.lower()] *)
Definition lower (s : str) : str := flat_map lower_char s.

Fixpoint is_prefix (p s : str) : bool :=
  match p, s with
  | [], _ => true
  | _ :: _, [] => false
  | a :: p', b :: s' => (a =? b)%N && is_prefix p' s'
  end.

(** The scan of [str.count] for a non-empty [sub]: occurrences are taken
    from the left and do not overlap; [skip] is the number of characters of
    the last occurrence still to step over. *)
Fixpoint count_go (sub : str) (skip : nat) (s : str) : nat :=
  match s with
  | [] => 0
  | _ :: r =>
      match skip with
      | S k => count_go sub k r
      | O => if is_prefix sub s
             then S (count_go sub (length sub - 1) r)
             else count_go sub 0 r
      end
  end.

(** [s.count(sub)] *)
Definition count (s sub : str) : nat :=
  match sub with
  | [] => S (length s)
  | _ :: _ => count_go sub 0 s
  end.

(** [s.split()]: the maximal runs of non-whitespace; [cur] is the run being
    read, last character first. *)
Fixpoint split_go (cur : str) (s : str) : list str :=
  match s with
  | [] => match cur with [] => [] | _ :: _ => [rev cur] end
  | c :: r =>
      if isspace c
      then match cur with [] => split_go [] r | _ :: _ => rev cur :: split_go [] r end
      else split_go (c :: cur) r
  end.

Definition split (s : str) : list str := split_go [] s.

(** [sep.join(parts)] *)
Fixpoint join (sep : str) (parts : list str) : str :=
  match parts with
  | [] => []
  | [x] => x
  | x :: rest => x ++ sep ++ join sep rest
  end.

(** Truth value of an [Optional[str]]: [None] and the empty string are false. *)
Definition truthy (o : option str) : bool :=
  match o with
  | None | Some [] => false
  | Some (_ :: _) => true
  end.

End Py.

Import Py.

(** ** The two regular expressions of [app.py] *)

Module Re.

(** The class [[.?!]]. *)
Definition is_end (c : char) : bool := ((c =? 46) || (c =? 63) || (c =? 33))%N.

Definition starts_with_space (s : str) : bool :=
  match s with
  | [] => false
  | d :: _ => isspace d
  end.

(** [re.split(r'[.?!]\s+', s)].  [cur] is the piece being read, last
    character first; [skipping] holds while the whitespace of a separator is
    being consumed. *)
Fixpoint split_sentences_go (skipping : bool) (cur : str) (s : str) : list str :=
  match s with
  | [] => [rev cur]
  | c :: r =>
      if skipping && isspace c then split_sentences_go true cur r
      else if is_end c && starts_with_space r
           then rev cur :: split_sentences_go true [] r
           else split_sentences_go false (c :: cur) r
  end.

Definition split_sentences (s : str) : list str := split_sentences_go false [] s.

(** The longest prefix of [s] that ends in a closing brace, when [s] has one:
    what a greedy [.*\}] under DOTALL consumes. *)
Fixpoint upto_last_close (s : str) : option str :=
  match s with
  | [] => None
  | c :: r =>
      match upto_last_close r with
      | Some t => Some (c :: t)
      | None => if (c =? 125)%N then Some [c] else None
      end
  end.

(** [re.search(r"\{.*\}", s, re.DOTALL)], giving [m.group(0)]: the match is
    tried at each position from the left. *)
Fixpoint search_braces (s : str) : option str :=
  match s with
  | [] => None
  | c :: r =>
      if (c =? 123)%N
      then match upto_last_close r with
           | Some t => Some (c :: t)
           | None => search_braces r
           end
      else search_braces r
  end.

End Re.

(** ** Exceptions *)

(** The exceptions of class [Exception] that the modelled code can meet.
    [RemoteError] stands for whatever the Groq library raises, [OSError] for
    whatever the operating system raises when a file is written. *)
Inductive exn : Type :=
| JSONDecodeError
| AttributeError
| TypeError
| RecursionError
| ValueError
| UnicodeEncodeError
| OSError
| RemoteError (msg : str).

Inductive exc (A : Type) : Type :=
| Val (a : A)
| Raise (e : exn).

Arguments Val {A} a.
Arguments Raise {A} e.

(** ** [json.loads] *)

Module Json.

(** What the decoder builds.  A number keeps its literal text; an object keeps
    its members in reading order, and a later member overrides an earlier one
    with the same key, as in the [dict] the decoder fills. *)
Inductive value : Type :=
| JNull
| JBool (b : bool)
| JNum (literal : str)
| JStr (s : str)
| JArr (items : list value)
| JObj (members : list (str * value)).

(** The state of the interpreter that the decoder depends on: how many more
    nested calls the recursion limit admits when [json.loads] is entered, and
    [sys.get_int_max_str_digits()] (4300 unless configured, 0 for no limit,
    as in the versions of Python that have no such limit). *)
Record limits : Type := Limits {
  max_depth : nat;
  max_digits : nat
}.

(** An interpreter with the default settings, some way down its stack. *)
Definition cpython : limits := Limits 900 4300.

(** An integer literal of [n] digits is refused: the limit is only looked at
    for more than 640 digits. *)
Definition too_many_digits (L : limits) (n : nat) : bool :=
  (640 <? n) && (0 <? max_digits L) && (max_digits L <? n).

(** The narrowest limits under which an object can be read at all: one level
    of nesting, integers of up to 640 digits. *)
Definition tight : limits := Limits 1 640.

(** The narrowest limits of all: no nesting, integers of up to 640 digits. *)
Definition narrowest : limits := Limits 0 640.

(** [L2] admits whatever [L1] admits. *)
Definition admits_more (L1 L2 : limits) : Prop :=
  max_depth L1 <= max_depth L2
  /\ forall n, too_many_digits L2 n = true -> too_many_digits L1 n = true.

(** Outcome of a scanning step: a result and the text after it, a syntax
    error, the budget of the model used up, or one of the two refusals of the
    interpreter: nesting beyond the recursion limit ([RecursionError]) and an
    integer literal beyond the digit limit ([ValueError]). *)
Inductive scan (A : Type) : Type :=
| Found (a : A) (rest : str)
| Bad
| Starved
| TooDeep
| TooLong.

Arguments Found {A} a rest.
Arguments Bad {A}.
Arguments Starved {A}.
Arguments TooDeep {A}.
Arguments TooLong {A}.

(** The scan ended without meeting a limit. *)
Definition settled {A} (o : scan A) : Prop :=
  match o with
  | Found _ _ | Bad => True
  | _ => False
  end.

(** The decoder's whitespace: space, tab, line feed, carriage return. *)
Definition is_ws (c : char) : bool :=
  ((c =? 32) || (c =? 9) || (c =? 10) || (c =? 13))%N.

Definition skip_ws (s : str) : str := dropwhile is_ws s.

Definition is_digit (c : char) : bool := between 48 57 c.

Definition hex_digit (c : char) : option N :=
  if between 48 57 c then Some (c - 48)%N
  else if between 97 102 c then Some (c - 87)%N
  else if between 65 70 c then Some (c - 55)%N
  else None.

Definition hex4 (a b c d : char) : option N :=
  match hex_digit a, hex_digit b, hex_digit c, hex_digit d with
  | Some x, Some y, Some z, Some w => Some (((x * 16 + y) * 16 + z) * 16 + w)%N
  | _, _, _, _ => None
  end.

Definition is_high_surrogate (u : N) : bool := between 55296 56319 u.
Definition is_low_surrogate (u : N) : bool := between 56320 57343 u.

Definition join_surrogates (hi lo : N) : N :=
  (65536 + ((hi - 55296) * 1024 + (lo - 56320)))%N.

(** The one-letter escapes after a backslash. *)
Definition unescape (e : char) : option char :=
  if (e =? 34)%N then Some 34%N
  else if (e =? 92)%N then Some 92%N
  else if (e =? 47)%N then Some 47%N
  else if (e =? 98)%N then Some 8%N
  else if (e =? 102)%N then Some 12%N
  else if (e =? 110)%N then Some 10%N
  else if (e =? 114)%N then Some 13%N
  else if (e =? 116)%N then Some 9%N
  else None.

(** [scanstring] in strict mode, from just after the opening quote; [acc] is
    the decoded text so far, last character first. *)
Fixpoint scanstring (s : str) (acc : str) : scan str :=
  match s with
  | [] => Bad
  | c :: r =>
      if (c =? 34)%N then Found (rev acc) r
      else if (c =? 92)%N then
        match r with
        | [] => Bad
        | e :: r1 =>
            if (e =? 117)%N then
              match r1 with
              | h1 :: h2 :: h3 :: h4 :: r2 =>
                  match hex4 h1 h2 h3 h4 with
                  | None => Bad
                  | Some u =>
                      if is_high_surrogate u then
                        match r2 with
                        | b :: v :: g1 :: g2 :: g3 :: g4 :: r3 =>
                            if ((b =? 92) && (v =? 117))%N then
                              match hex4 g1 g2 g3 g4 with
                              | None => Bad
                              | Some u2 =>
                                  if is_low_surrogate u2
                                  then scanstring r3 (join_surrogates u u2 :: acc)
                                  else scanstring r2 (u :: acc)
                              end
                            else scanstring r2 (u :: acc)
                        | _ => scanstring r2 (u :: acc)
                        end
                      else scanstring r2 (u :: acc)
                  end
              | _ => Bad
              end
            else
              match unescape e with
              | Some c' => scanstring r1 (c' :: acc)
              | None => Bad
              end
        end
      else if (c <=? 31)%N then Bad
      else scanstring r (c :: acc)
  end.

Definition skip_digits (s : str) : str := dropwhile is_digit s.

(** The integer part of a number: [0], or a non-zero digit and more digits. *)
Definition int_part (s : str) : option str :=
  match s with
  | [] => None
  | c :: r =>
      if between 49 57 c then Some (skip_digits r)
      else if (c =? 48)%N then Some r
      else None
  end.

(** An optional fraction: a dot and at least one digit. *)
Definition frac_part (s : str) : str :=
  match s with
  | c :: d :: r => if (c =? 46)%N && is_digit d then skip_digits r else s
  | _ => s
  end.

(** An optional exponent: [e] or [E], an optional sign, at least one digit. *)
Definition exp_part (s : str) : str :=
  match s with
  | c :: r =>
      if ((c =? 101) || (c =? 69))%N then
        match r with
        | d :: r1 =>
            if is_digit d then skip_digits r1
            else if ((d =? 45) || (d =? 43))%N then
              match r1 with
              | d1 :: r2 => if is_digit d1 then skip_digits r2 else s
              | [] => s
              end
            else s
        | [] => s
        end
      else s
  | [] => s
  end.

(** The number at the head of [s]: its literal and the text after it.  A
    literal without fraction and exponent is converted to an [int], which the
    digit limit can refuse. *)
Definition match_number (L : limits) (s : str) : scan value :=
  let body := match s with
              | c :: r => if (c =? 45)%N then r else s
              | [] => s
              end in
  match int_part body with
  | None => Bad
  | Some r =>
      let rest := exp_part (frac_part r) in
      let is_float := negb (length rest =? length r) in
      if negb is_float && too_many_digits L (length body - length r)
      then TooLong
      else Found (JNum (firstn (length s - length rest) s)) rest
  end.

(** A fixed word at the head of [s]. *)
Definition keyword (w : str) (v : value) (s : str) : option (scan value) :=
  if is_prefix w s then Some (Found v (skipn (length w) s)) else None.

Definition constant (L : limits) (s : str) : scan value :=
  match keyword (lit "null") JNull s with Some r => r | None =>
  match keyword (lit "true") (JBool true) s with Some r => r | None =>
  match keyword (lit "false") (JBool false) s with Some r => r | None =>
  match keyword (lit "NaN") (JNum (lit "NaN")) s with Some r => r | None =>
  match keyword (lit "Infinity") (JNum (lit "Infinity")) s with Some r => r | None =>
  match keyword (lit "-Infinity") (JNum (lit "-Infinity")) s with Some r => r | None =>
  match_number L s
  end end end end end end.

(** [scan_once], with the loops of the object and of the array decoder.
    [members] and [elements] start at the first key, resp. the first item,
    and carry what was read so far, last first.  [depth] is the number of
    nested objects and arrays that the recursion limit still admits: entering
    one takes one from it, before anything of it is read.  [fuel] bounds the
    calls of the model. *)
Fixpoint scan_once (L : limits) (fuel depth : nat) (s : str) : scan value :=
  match fuel with
  | O => Starved
  | S f =>
      match s with
      | [] => Bad
      | c :: r =>
          if (c =? 34)%N then
            match scanstring r [] with
            | Found k r' => Found (JStr k) r'
            | Bad => Bad
            | Starved => Starved
            | TooDeep => TooDeep
            | TooLong => TooLong
            end
          else if (c =? 123)%N then
            match depth with
            | O => TooDeep
            | S d =>
                match skip_ws r with
                | x :: r' =>
                    if (x =? 125)%N then Found (JObj []) r'
                    else members L f d (skip_ws r) []
                | [] => Bad
                end
            end
          else if (c =? 91)%N then
            match depth with
            | O => TooDeep
            | S d =>
                match skip_ws r with
                | x :: r' =>
                    if (x =? 93)%N then Found (JArr []) r'
                    else elements L f d (skip_ws r) []
                | [] => Bad
                end
            end
          else constant L s
      end
  end

with members (L : limits) (fuel depth : nat) (s : str)
       (acc : list (str * value)) : scan value :=
  match fuel with
  | O => Starved
  | S f =>
      match s with
      | [] => Bad
      | q :: r =>
          if (q =? 34)%N then
            match scanstring r [] with
            | Found k r1 =>
                match skip_ws r1 with
                | colon :: r2 =>
                    if (colon =? 58)%N then
                      match scan_once L f depth (skip_ws r2) with
                      | Found v r3 =>
                          match skip_ws r3 with
                          | x :: r4 =>
                              if (x =? 125)%N then Found (JObj (rev ((k, v) :: acc))) r4
                              else if (x =? 44)%N
                                   then members L f depth (skip_ws r4) ((k, v) :: acc)
                                   else Bad
                          | [] => Bad
                          end
                      | Bad => Bad
                      | Starved => Starved
                      | TooDeep => TooDeep
                      | TooLong => TooLong
                      end
                    else Bad
                | [] => Bad
                end
            | Bad => Bad
            | Starved => Starved
            | TooDeep => TooDeep
            | TooLong => TooLong
            end
          else Bad
      end
  end

with elements (L : limits) (fuel depth : nat) (s : str) (acc : list value)
  : scan value :=
  match fuel with
  | O => Starved
  | S f =>
      match scan_once L f depth s with
      | Found v r1 =>
          match skip_ws r1 with
          | x :: r2 =>
              if (x =? 93)%N then Found (JArr (rev (v :: acc))) r2
              else if (x =? 44)%N then elements L f depth (skip_ws r2) (v :: acc)
              else Bad
          | [] => Bad
          end
      | Bad => Bad
      | Starved => Starved
      | TooDeep => TooDeep
      | TooLong => TooLong
      end
  end.

(** [JSONDecoder.decode]: one value between optional whitespace, and nothing
    after it. *)
Definition decode (L : limits) (s : str) : scan value :=
  let s0 := skip_ws s in
  match scan_once L (2 * length s0 + 1) (max_depth L) s0 with
  | Found v rest =>
      match skip_ws rest with
      | [] => Found v []
      | _ :: _ => Bad
      end
  | Bad => Bad
  | Starved => Starved
  | TooDeep => TooDeep
  | TooLong => TooLong
  end.

(** [json.loads(s)] for a [str]: a text that starts with a byte order mark
    is refused, every syntax error is a [JSONDecodeError], nesting beyond the
    recursion limit a [RecursionError], an integer beyond the digit limit a
    [ValueError].  The budget given to [scan_once] is never used up
    ([decode_not_starved]); the memory of the machine is taken to suffice. *)
Definition loads (L : limits) (s : str) : exc value :=
  if is_prefix [65279%N] s then Raise JSONDecodeError
  else match decode L s with
       | Found v _ => Val v
       | Bad => Raise JSONDecodeError
       | Starved => Raise RecursionError
       | TooDeep => Raise RecursionError
       | TooLong => Raise ValueError
       end.

(** [d[key]] of the dict built from the members: the last one wins. *)
Fixpoint lookup (key : str) (members : list (str * value)) : option value :=
  match members with
  | [] => None
  | (k, v) :: rest =>
      match lookup key rest with
      | Some v' => Some v'
      | None => if list_eq_dec N.eq_dec k key then Some v else None
      end
  end.

(** [parsed.get(key, default)]: only a dict has the method. *)
Definition get (parsed : value) (key default : str) : exc value :=
  match parsed with
  | JObj members =>
      match lookup key members with
      | Some v => Val v
      | None => Val (JStr default)
      end
  | _ => Raise AttributeError
  end.

(** [v.strip()]: only a [str] has the method. *)
Definition strip_value (v : value) : exc str :=
  match v with
  | JStr s => Val (strip s)
  | _ => Raise AttributeError
  end.

End Json.

(** ** The world around the dispatcher *)

(** What the Analyze handler does to the outside, in the order it happens. *)
Inductive warning : Type :=
| ClientNotAvailable            (* "Groq client not available. Using local fallback." *)
| ErrorCallingGroq (e : exn).   (* "Error calling Groq: {e}. Using local fallback." *)

Inductive event : Type :=
| GroqConstructed (api_key : str)       (* [Groq(api_key=...)] was called *)
| CompletionRequested (transcript : str) (* [client.chat.completions.create] was called *)
| Warned (w : warning).                  (* [st.warning] was called *)

(** A client is the credential it was built with. *)
Record client : Type := Client { api_key : str }.

(** The module-level state of [app.py], the behaviour of the Groq library
    and the state of the interpreter: the import flag, the environment's key,
    whether the constructor raises, what lines 60-61 of [call_groq_for_json]
    leave in [generated] (the [content] of the first choice, which may be
    [None]) or raise, and the limits under which [json.loads] runs. *)
Record env : Type := Env {
  GROQ_AVAILABLE : bool;
  GROQ_API_KEY : option str;
  Groq : str -> exc client;
  completion : client -> str -> exc (option str);
  interpreter : Json.limits
}.

(** Computations that may raise and that append to the log of events. *)
Definition M (A : Type) : Type := list event -> exc A * list event.

Definition ret {A} (a : A) : M A := fun log => (Val a, log).

Definition bind {A B} (m : M A) (k : A -> M B) : M B :=
  fun log =>
    match m log with
    | (Val a, log') => k a log'
    | (Raise e, log') => (Raise e, log')
    end.

Definition emit (ev : event) : M unit := fun log => (Val tt, log ++ [ev]).

Definition lift {A} (x : exc A) : M A := fun log => (x, log).

(** [try: body except Exception as e: handler e] *)
Definition try_except {A} (body : M A) (handler : exn -> M A) : M A :=
  fun log =>
    match body log with
    | (Val a, log') => (Val a, log')
    | (Raise e, log') => handler e log'
    end.

Notation "x <- m ;; k" := (bind m (fun x => k))
  (at level 61, m at next level, right associativity).
Notation "m ;;; k" := (bind m (fun _ => k))
  (at level 61, right associativity).

(** The same two combinators without a log, for code that only raises. *)
Definition ebind {A B} (x : exc A) (k : A -> exc B) : exc B :=
  match x with
  | Val a => k a
  | Raise e => Raise e
  end.

Definition etry {A} (body : exc A) (handler : exn -> exc A) : exc A :=
  match body with
  | Val a => Val a
  | Raise e => handler e
  end.

Notation "x <~ m ;; k" := (ebind m (fun x => k))
  (at level 61, m at next level, right associativity).

(** ** [app.py] *)

Module App.

Import Re.

(** Lines 22-28. *)
Definition make_groq_client (E : env) : M (option client) :=
  if negb (GROQ_AVAILABLE E) || negb (truthy (GROQ_API_KEY E)) then ret None
  else
    let key := match GROQ_API_KEY E with Some k => k | None => [] end in
    try_except
      (emit (GroqConstructed key) ;;;
       c <- lift (Groq E key) ;;
       ret (Some c))
      (fun _ => ret None).

Definition NEGATIVE_WORDS : list str :=
  map lit ["not"; "failed"; "frustrat"; "angry"; "charged"; "refund";
           "problem"; "issue"; "complain"; "delay"]%string.

Definition POSITIVE_WORDS : list str :=
  map lit ["thank"; "thanks"; "great"; "happy"; "good"; "satisfied"]%string.

(** Line 35.  [re.split] never returns an empty list, so the second arm is
    written as the source has it and is never taken
    ([split_sentences_nonempty]). *)
Definition summarize (s : str) : str :=
  match split_sentences s with
  | first :: _ => strip first
  | [] => join (lit " ") (firstn 12 (split s)) ++ lit "..."
  end.

(** Lines 38-41. *)
Definition classify (s : str) : str :=
  let t := lower s in
  let neg := list_sum (map (fun w => count t w) NEGATIVE_WORDS) in
  let pos := list_sum (map (fun w => count t w) POSITIVE_WORDS) in
  if pos <? neg then lit "Negative"
  else if neg <? pos then lit "Positive"
  else lit "Neutral".

(** Lines 31-42. *)
Definition local_fallback (transcript : str) : str * str :=
  let s := strip transcript in
  (summarize s, classify s).

(** [parsed.get("summary", "").strip(), parsed.get("sentiment", "").strip()]:
    the two fields of lines 65 and 71, read from left to right. *)
Definition fields (parsed : Json.value) : exc (str * str) :=
  a <~ Json.get parsed (lit "summary") [] ;;
  summary <~ Json.strip_value a ;;
  b <~ Json.get parsed (lit "sentiment") [] ;;
  sentiment <~ Json.strip_value b ;;
  Val (summary, sentiment).

(** [json.loads] and [re.search] applied to [generated], which is a [str] or
    [None]; both raise [TypeError] on [None]. *)
Definition loads_generated (L : Json.limits) (generated : option str)
  : exc Json.value :=
  match generated with
  | Some g => Json.loads L g
  | None => Raise TypeError
  end.

Definition search_generated (generated : option str) : exc (option str) :=
  match generated with
  | Some g => Val (search_braces g)
  | None => Raise TypeError
  end.

Definition strip_generated (generated : option str) : exc str :=
  match generated with
  | Some g => Val (strip g)
  | None => Raise AttributeError
  end.

(** Line 74. *)
Definition fall_through (generated : option str) : exc (str * str) :=
  s <~ strip_generated generated ;;
  Val (s, lit "Unknown").

(** Lines 63-74: the reply parser.  The handler of the first [try] is not
    itself guarded, so what [re.search] raises leaves the function. *)
Definition parse_generated (L : Json.limits) (generated : option str)
  : exc (str * str) :=
  etry
    (parsed <~ loads_generated L generated ;; fields parsed)
    (fun _ =>
       m <~ search_generated generated ;;
       match m with
       | Some block =>
           etry
             (parsed <~ Json.loads L block ;; fields parsed)
             (fun _ => fall_through generated)
       | None => fall_through generated
       end).

(** The reply parser on a [str]. *)
Definition parse (L : Json.limits) (raw : str) : exc (str * str) :=
  parse_generated L (Some raw).

(** Lines 45-74; the third component of the result is [generated]. *)
Definition call_groq_for_json (E : env) (c : client) (transcript : str)
  : M (str * str * option str) :=
  emit (CompletionRequested transcript) ;;;
  generated <- lift (completion E c transcript) ;;
  p <- lift (parse_generated (interpreter E) generated) ;;
  ret (fst p, snd p, generated).

Inductive source : Type := LOCAL_FALLBACK | GROQ.

Record analysis : Type := Analysis {
  summary : str;
  sentiment : str;
  used : source
}.

(** Lines 113-114, 119-120 and 127-128: the heuristic result, tagged. *)
Definition heuristic_result (transcript : str) : analysis :=
  let p := local_fallback transcript in
  Analysis (fst p) (snd p) LOCAL_FALLBACK.

(** The heuristic strategy as a step of the dispatcher: it neither raises nor
    touches the log. *)
Definition heuristic (transcript : str) : M analysis :=
  ret (heuristic_result transcript).

(** Line 111. *)
Definition use_offline (E : env) : bool :=
  negb (GROQ_AVAILABLE E) || negb (truthy (GROQ_API_KEY E)).

(** Lines 110-128: the dispatch of the Analyze handler. *)
Definition analyze (E : env) (transcript : str) : M analysis :=
  if use_offline E then heuristic transcript
  else
    c <- make_groq_client E ;;
    match c with
    | None => emit (Warned ClientNotAvailable) ;;; heuristic transcript
    | Some cl =>
        try_except
          (r <- call_groq_for_json E cl transcript ;;
           ret (Analysis (fst (fst r)) (snd (fst r)) GROQ))
          (fun e => emit (Warned (ErrorCallingGroq e)) ;;; heuristic transcript)
    end.

End App.

(** ** The specification's wording of the heuristic *)

Module Spec.

Import Re App.

(** Substring occurrences of [w] in [t]: the positions at which [w] starts,
    overlapping ones included. *)
Fixpoint occurrences (w t : str) : nat :=
  match t with
  | [] => 0
  | _ :: r => (if is_prefix w t then 1 else 0) + occurrences w r
  end.

(** "Lower-case the transcript; count each term of the negative set and of the
    positive set; Negative if neg > pos, Positive if pos > neg, Neutral if
    equal." *)
Definition sentiment_spec (transcript : str) : str :=
  let t := lower transcript in
  let neg := list_sum (map (fun w => occurrences w t) NEGATIVE_WORDS) in
  let pos := list_sum (map (fun w => occurrences w t) POSITIVE_WORDS) in
  if pos <? neg then lit "Negative"
  else if neg <? pos then lit "Positive"
  else lit "Neutral".

(** A sentence boundary somewhere in [s]: one of [.?!] followed by
    whitespace. *)
Fixpoint has_boundary (s : str) : bool :=
  match s with
  | [] => false
  | c :: r => (is_end c && starts_with_space r) || has_boundary r
  end.

Definition nonempty (s : str) : bool :=
  match s with
  | [] => false
  | _ :: _ => true
  end.

(** "Split the transcript into sentences; return the first non-empty sentence
    trimmed of surrounding whitespace.  If no sentence boundary is found,
    return the first 12 whitespace-separated tokens joined by single spaces,
    suffixed with an ellipsis." *)
Definition summary_spec (transcript : str) : str :=
  if has_boundary transcript then
    match find nonempty (split_sentences transcript) with
    | Some sentence => strip sentence
    | None => []
    end
  else join (lit " ") (firstn 12 (split transcript)) ++ lit "...".

(** [s] begins with a sentence boundary. *)
Definition leading_boundary (s : str) : bool :=
  match s with
  | [] => false
  | c :: r => is_end c && starts_with_space r
  end.

(** The text of [s] before its first sentence boundary, all of [s] when it
    has none. *)
Fixpoint before_boundary (s : str) : str :=
  match s with
  | [] => []
  | c :: r => if is_end c && starts_with_space r then [] else c :: before_boundary r
  end.

(** The text of a field of an object that is absent or a string: the empty
    string, resp. that string; nothing for a field of another type. *)
Definition text_field (key : str) (members : list (str * Json.value))
  : option str :=
  match Json.lookup key members with
  | None => Some []
  | Some (Json.JStr s) => Some s
  | Some _ => None
  end.

(** "A JSON object whose summary and sentiment are each absent or a string":
    what such a text answers, namely its two fields trimmed of whitespace;
    nothing for any other text. *)
Definition answer (L : Json.limits) (text : str) : option (str * str) :=
  match Json.loads L text with
  | Val (Json.JObj members) =>
      match text_field (lit "summary") members,
            text_field (lit "sentiment") members with
      | Some a, Some b => Some (strip a, strip b)
      | _, _ => None
      end
  | _ => None
  end.

(** The answer the reply holds: that of the whole reply if it is one, else
    that of its brace-delimited block if there is a block and it is one. *)
Definition chosen (L : Json.limits) (raw : str) : option (str * str) :=
  match answer L raw with
  | Some p => Some p
  | None =>
      match search_braces raw with
      | Some block => answer L block
      | None => None
      end
  end.

(** A word none of whose proper suffixes is a prefix of it: two occurrences
    of such a word cannot overlap. *)
Definition unbordered (w : str) : bool :=
  forallb (fun k => negb (is_prefix (skipn k w) w)) (seq 1 (length w - 1)).

(** What the keyword lists are checked for: not empty, no whitespace, no
    overlap with itself. *)
Definition plain_word (w : str) : bool :=
  nonempty w && forallb (fun c => negb (isspace c)) w && unbordered w.

End Spec.

(** ** Replies and configurations used below *)

Module Sample.

Import App.

Definition refusal : str := lit "I cannot help with that.".

Definition strict_reply : str := dq "{'summary': 'S', 'sentiment': 'Positive'}".

Definition wrapped_reply : str :=
  dq "Sure! Here is the result: {'summary': 'Customer had a billing issue.', 'sentiment': 'Negative'} Hope this helps!".

(** A strict JSON object whose summary is a number. *)
Definition numeric_summary : str := dq "{'summary': 5, 'sentiment': 'Positive'}".

(** The same object inside prose. *)
Definition wrapped_numeric : str :=
  dq "Result: {'summary': 5, 'sentiment': 'Positive'} Done.".

Definition first_object : str := dq "{'summary': 'A', 'sentiment': 'Positive'}".
Definition second_object : str := dq "{'summary': 'B', 'sentiment': 'Negative'}".

(** Two objects with text before, between and after them. *)
Definition two_objects : str :=
  lit "First: " ++ first_object ++ lit " second: " ++ second_object ++ lit " end.".

(** A reply whose sentiment is none of the expected labels, and one without a
    summary. *)
Definition mixed_reply : str := dq "{'summary': 'S', 'sentiment': 'Mixed'}".
Definition no_summary_reply : str := dq "{'sentiment': 'Positive'}".

(** No Groq library and no key. *)
Definition offline : env :=
  Env false None (fun k => Val (Client k)) (fun _ _ => Raise (RemoteError []))
      Json.cpython.

(** Library and key present, the constructor succeeds, the model answers
    [reply]. *)
Definition online (reply : option str) : env :=
  Env true (Some (lit "key")) (fun k => Val (Client k)) (fun _ _ => Val reply)
      Json.cpython.

(** Library and key present, but the request fails. *)
Definition unreachable : env :=
  Env true (Some (lit "key")) (fun k => Val (Client k))
      (fun _ _ => Raise (RemoteError (lit "timeout"))) Json.cpython.

End Sample.

(** ** The Analyze handler and the record file *)

Module Handler.

Import App.

(** [call_analysis.csv] as the records it holds: the header line
    [Transcript,Summary,Sentiment] and one row per analysis.  How pandas
    renders a record as text (quoting, line ends) is not modelled. *)
Inductive line : Type :=
| Header
| Row (transcript summary sentiment : str).

(** The file, [None] while it does not exist. *)
Definition file : Type := option (list line).

(** What a write in append mode with [header=not os.path.exists(csv_path)]
    leaves when it succeeds. *)
Definition append_row (csv : file) (row : line) : file :=
  match csv with
  | None => Some [Header; row]
  | Some lines => Some (lines ++ [row])
  end.

(** Text that UTF-8 can encode: no surrogate code point. *)
Definition encodable (s : str) : bool :=
  forallb (fun c => negb (between 55296 57343 c)) s.

Definition encodable_line (l : line) : bool :=
  match l with
  | Header => true
  | Row transcript summary sentiment =>
      encodable transcript && encodable summary && encodable sentiment
  end.

(** Lines 131-133: [to_csv].  The write is outside every [try]: it raises
    what the operating system or pandas raises ([refusal], if they do), and
    [UnicodeEncodeError] on a row that UTF-8 cannot encode.  What a failed
    write leaves in the file is not modelled. *)
Definition to_csv (refusal : option exn) (csv : file) (row : line) : exc file :=
  match refusal with
  | Some e => Raise e
  | None =>
      if encodable_line row then Val (append_row csv row)
      else Raise UnicodeEncodeError
  end.

(** What the page shows after a click: the warning of line 108, or the
    transcript, the summary, the sentiment and the strategy named in the
    success notice (lines 136-142). *)
Inductive display : Type :=
| PleaseTypeTranscript
| Report (transcript summary sentiment : str) (used : source).

(** Lines 106-142: one click on Analyze; [refusal] is what the write of this
    click raises, if it raises. *)
Definition on_analyze (E : env) (refusal : option exn) (transcript : str)
  (csv : file) : M (file * display) :=
  match strip transcript with
  | [] => ret (csv, PleaseTypeTranscript)
  | _ :: _ =>
      r <- analyze E transcript ;;
      csv' <- lift (to_csv refusal csv
                      (Row transcript (summary r) (sentiment r))) ;;
      ret (csv', Report transcript (summary r) (sentiment r) (used r))
  end.

(** A run of the page: Streamlit runs the script again at every click, each
    time with the module state of that run, the fate of its write and the
    transcript typed in.  The run described ends at the first click that
    raises. *)
Fixpoint session (clicks : list (env * option exn * str)) (csv : file)
  : M (file * list display) :=
  match clicks with
  | [] => ret (csv, [])
  | (E, refusal, transcript) :: rest =>
      now_ <- on_analyze E refusal transcript csv ;;
      later <- session rest (fst now_) ;;
      ret (fst later, snd now_ :: snd later)
  end.



(** The event is a request to the model. *)
Definition is_request (ev : event) : bool :=
  match ev with
  | CompletionRequested _ => true
  | _ => false
  end.


(** The transcript is not blank: [transcript.strip()] is true. *)
Definition typed (transcript : str) : bool := Spec.nonempty (strip transcript).

End Handler.

(** ** Notions used to state properties *)

Module Text.

(** [w] occurs in [t] as a substring. *)
Definition substring (w t : str) : Prop := exists pre post, t = pre ++ w ++ post.

(** An ASCII small letter replaced by its capital. *)
Definition ascii_upper (c : char) : char :=
  if between 97 122 c then (c - 32)%N else c.

(** Free of whitespace at both ends. *)
Definition trimmed (s : str) : Prop := strip s = s.

End Text.

Import Re App Spec.

(** * Properties *)

(** ** Trimming *)

Lemma dropwhile_split (p : char -> bool) (s : str) :
  exists ws, s = ws ++ dropwhile p s /\ forallb p ws = true.
Proof.
  induction s as [|c r IH]; simpl.
  - exists []. split; reflexivity.
  - destruct (p c) eqn:Hc.
    + destruct IH as [ws [Heq Hws]].
      exists (c :: ws). simpl. rewrite Hc, Hws. split; [now f_equal | reflexivity].
    + exists []. split; reflexivity.
Qed.

Lemma dropwhile_head (p : char -> bool) (s : str) (c : char) (r : str) :
  dropwhile p s = c :: r -> p c = false.
Proof.
  induction s as [|d s IH]; simpl; [discriminate|].
  destruct (p d) eqn:Hd; [exact IH|].
  intros H. injection H as <- _. exact Hd.
Qed.

Lemma dropwhile_keeps_last (p : char -> bool) (s : str) (c : char) :
  p c = false -> dropwhile p (s ++ [c]) <> [].
Proof.
  intros Hc. induction s as [|d s IH]; simpl.
  - rewrite Hc. discriminate.
  - destruct (p d); [exact IH | discriminate].
Qed.

Lemma forallb_rev (p : char -> bool) (s : str) :
  forallb p (rev s) = forallb p s.
Proof.
  induction s as [|c r IH]; simpl; [reflexivity|].
  rewrite forallb_app, IH. simpl. rewrite andb_true_r. apply andb_comm.
Qed.

Lemma rstrip_split (s : str) :
  exists ws, s = rstrip s ++ ws /\ forallb isspace ws = true.
Proof.
  unfold rstrip.
  destruct (dropwhile_split isspace (rev s)) as [ws [Heq Hws]].
  exists (rev ws). split.
  - rewrite <- rev_app_distr, <- Heq. symmetry. apply rev_involutive.
  - rewrite forallb_rev. exact Hws.
Qed.

(** [strip] removes whitespace at both ends and nothing else. *)
Lemma strip_split (s : str) :
  exists a b, s = a ++ strip s ++ b
              /\ forallb isspace a = true /\ forallb isspace b = true.
Proof.
  unfold strip, lstrip.
  destruct (dropwhile_split isspace s) as [a [Ha Hwa]].
  destruct (rstrip_split (dropwhile isspace s)) as [b [Hb Hwb]].
  exists a, b. split; [|split]; try assumption.
  rewrite <- Hb. exact Ha.
Qed.

Lemma strip_head (s : str) (c : char) (r : str) :
  strip s = c :: r -> isspace c = false.
Proof.
  unfold strip. intros H.
  destruct (rstrip_split (lstrip s)) as [ws [Heq _]].
  rewrite H in Heq. simpl in Heq.
  unfold lstrip in Heq. exact (dropwhile_head isspace s c (r ++ ws) Heq).
Qed.

Lemma strip_nonempty (c : char) (r : str) :
  isspace c = false -> strip (c :: r) <> [].
Proof.
  intros Hc. unfold strip, lstrip. simpl. rewrite Hc.
  unfold rstrip. simpl. intros H.
  apply (f_equal (@rev char)) in H. rewrite rev_involutive in H. simpl in H.
  exact (dropwhile_keeps_last isspace (rev r) c Hc H).
Qed.

(** ** Sentence splitting *)

Lemma split_sentences_go_nonempty (k : bool) (cur s : str) :
  split_sentences_go k cur s <> [].
Proof.
  revert k cur. induction s as [|c r IH]; intros k cur; simpl.
  - discriminate.
  - destruct (k && isspace c); [apply IH|].
    destruct (is_end c && starts_with_space r); [discriminate | apply IH].
Qed.

(** [re.split] always returns at least one piece. *)
Lemma split_sentences_nonempty (s : str) : split_sentences s <> [].
Proof. apply split_sentences_go_nonempty. Qed.

Lemma split_sentences_go_first (cur s : str) :
  hd [] (split_sentences_go false cur s) = rev cur ++ before_boundary s.
Proof.
  revert cur. induction s as [|c r IH]; intros cur; simpl.
  - now rewrite app_nil_r.
  - destruct (is_end c && starts_with_space r); simpl.
    + now rewrite app_nil_r.
    + rewrite IH. simpl. now rewrite <- app_assoc.
Qed.

(** The first piece of the split is the text before the first boundary. *)
Lemma split_sentences_first (s : str) :
  hd [] (split_sentences s) = before_boundary s.
Proof. apply (split_sentences_go_first [] s). Qed.

(** The summary is the trimmed text before the first boundary: the second
    arm of line 35 plays no part. *)
Lemma summarize_before_boundary (s : str) :
  summarize s = strip (before_boundary s).
Proof.
  unfold summarize. rewrite <- split_sentences_first.
  destruct (split_sentences s) eqn:H; [|reflexivity].
  now apply split_sentences_nonempty in H.
Qed.

Lemma is_end_not_space (c : char) : is_end c = true -> isspace c = false.
Proof.
  unfold is_end. intros H.
  apply orb_true_iff in H. destruct H as [H|H].
  - apply orb_true_iff in H. destruct H as [H|H];
      apply N.eqb_eq in H; subst; reflexivity.
  - apply N.eqb_eq in H; subst; reflexivity.
Qed.

Lemma before_boundary_prefix (pre : str) (p w : char) (rest : str) :
  has_boundary pre = false -> is_end p = true -> isspace w = true ->
  before_boundary (pre ++ p :: w :: rest) = pre.
Proof.
  intros Hpre Hp Hw. induction pre as [|c r IH]; simpl in *.
  - now rewrite Hp, Hw.
  - apply orb_false_iff in Hpre. destruct Hpre as [Hc Hr].
    assert (Hn : is_end c && starts_with_space (r ++ p :: w :: rest) = false).
    { destruct r as [|d r']; simpl in *.
      - rewrite (is_end_not_space p Hp). apply andb_false_r.
      - exact Hc. }
    rewrite Hn. f_equal. apply IH. exact Hr.
Qed.

Lemma before_boundary_none (s : str) :
  has_boundary s = false -> before_boundary s = s.
Proof.
  induction s as [|c r IH]; simpl; [reflexivity|].
  intros H. apply orb_false_iff in H. destruct H as [Hc Hr].
  rewrite Hc. f_equal. now apply IH.
Qed.

(** ** Counting keywords *)

Lemma is_prefix_split (w s : str) :
  is_prefix w s = true -> s = w ++ skipn (length w) s.
Proof.
  revert s. induction w as [|a w IH]; intros [|b s]; simpl; try reflexivity.
  - discriminate.
  - intros H. apply andb_true_iff in H. destruct H as [Hab Hw].
    apply N.eqb_eq in Hab. subst b. f_equal. now apply IH.
Qed.

Lemma is_prefix_shorter (w a x : str) :
  length a <= length w -> is_prefix w (a ++ x) = true -> is_prefix a w = true.
Proof.
  revert w. induction a as [|c a IH]; intros [|h w]; simpl; try reflexivity.
  - lia.
  - intros Hlen H. apply andb_true_iff in H. destruct H as [Hhc Hw].
    apply N.eqb_eq in Hhc. subst c. rewrite N.eqb_refl. simpl.
    apply IH; [lia | exact Hw].
Qed.

(** Inside an occurrence of an unbordered word no other occurrence starts. *)
Lemma no_overlap (w s : str) (j : nat) :
  unbordered w = true -> is_prefix w s = true ->
  1 <= j < length w -> is_prefix w (skipn j s) = false.
Proof.
  intros Hu Hp Hj.
  destruct (is_prefix w (skipn j s)) eqn:Hq; [exfalso | reflexivity].
  rewrite (is_prefix_split w s Hp) in Hq.
  rewrite skipn_app in Hq.
  replace (j - length w) with 0 in Hq by lia. simpl in Hq.
  apply is_prefix_shorter in Hq; [|rewrite length_skipn; lia].
  unfold unbordered in Hu. rewrite forallb_forall in Hu.
  specialize (Hu j). rewrite Hq in Hu.
  assert (In j (seq 1 (length w - 1))) as Hin by (apply in_seq; lia).
  specialize (Hu Hin). discriminate.
Qed.

Lemma count_go_skip (w : str) (k : nat) (s : str) :
  count_go w k s = count_go w 0 (skipn k s).
Proof.
  revert k. induction s as [|c r IH]; intros [|k]; try reflexivity.
  simpl. apply IH.
Qed.

Lemma skipn_succ (j : nat) (s : str) : skipn (S j) s = tl (skipn j s).
Proof.
  revert s. induction j as [|j IH]; intros [|c r]; try reflexivity.
  apply (IH r).
Qed.

Lemma occurrences_step (w s : str) (j : nat) :
  is_prefix w (skipn j s) = false ->
  occurrences w (skipn j s) = occurrences w (skipn (S j) s).
Proof.
  rewrite skipn_succ. destruct (skipn j s) as [|c r]; [reflexivity|].
  intros H. change (occurrences w (c :: r))
    with ((if is_prefix w (c :: r) then 1 else 0) + occurrences w r).
  now rewrite H.
Qed.

Lemma occurrences_gap (w s : str) (n : nat) :
  (forall j, 1 <= j < 1 + n -> is_prefix w (skipn j s) = false) ->
  occurrences w (skipn 1 s) = occurrences w (skipn (1 + n) s).
Proof.
  induction n as [|n IH]; intros H; [reflexivity|].
  rewrite IH by (intros j Hj; apply H; lia).
  apply occurrences_step. apply H. lia.
Qed.

(** For an unbordered word the scan of [str.count] finds every occurrence. *)
Lemma count_go_occurrences (w : str) :
  nonempty w = true -> unbordered w = true ->
  forall s, count_go w 0 s = occurrences w s.
Proof.
  intros Hne Hu s.
  remember (length s) as n eqn:Hn. revert s Hn.
  induction n as [n IH] using lt_wf_ind. intros [|c r] Hn; [reflexivity|].
  simpl in Hn.
  change (count_go w 0 (c :: r))
    with (if is_prefix w (c :: r)
          then S (count_go w (length w - 1) r) else count_go w 0 r).
  change (occurrences w (c :: r))
    with ((if is_prefix w (c :: r) then 1 else 0) + occurrences w r).
  destruct (is_prefix w (c :: r)) eqn:Hp.
  - rewrite count_go_skip.
    rewrite (IH (length (skipn (length w - 1) r)))
      by (rewrite ?length_skipn; lia || reflexivity).
    simpl. f_equal.
    change r with (skipn 1 (c :: r)) at 2.
    destruct w as [|h w']; [discriminate|].
    rewrite (occurrences_gap (h :: w') (c :: r) (length w')).
    + simpl. now rewrite Nat.sub_0_r.
    + intros j Hj. apply no_overlap; simpl; try assumption; lia.
  - simpl. apply (IH (length r)); [lia | reflexivity].
Qed.

Lemma count_occurrences (w t : str) :
  plain_word w = true -> count t w = occurrences w t.
Proof.
  unfold plain_word. intros H.
  apply andb_true_iff in H. destruct H as [H Hu].
  apply andb_true_iff in H. destruct H as [Hne _].
  destruct w as [|h w']; [discriminate|].
  apply (count_go_occurrences (h :: w') Hne Hu).
Qed.

(** Whitespace around the text holds no occurrence of a keyword. *)
Lemma is_prefix_space (h : char) (w : str) (c : char) (r : str) :
  isspace h = false -> isspace c = true -> is_prefix (h :: w) (c :: r) = false.
Proof.
  intros Hh Hc. simpl. destruct (N.eqb_spec h c) as [->|_]; [|reflexivity].
  congruence.
Qed.

Lemma occurrences_space_left (w a x : str) :
  nonempty w = true -> forallb (fun c => negb (isspace c)) w = true ->
  forallb isspace a = true -> occurrences w (a ++ x) = occurrences w x.
Proof.
  intros Hne Hw Ha. destruct w as [|h w]; [discriminate|].
  simpl in Hw. apply andb_true_iff in Hw. destruct Hw as [Hh _].
  apply negb_true_iff in Hh.
  induction a as [|c a IH]; [reflexivity|].
  simpl in Ha. apply andb_true_iff in Ha. destruct Ha as [Hc Ha].
  change (occurrences (h :: w) ((c :: a) ++ x))
    with ((if is_prefix (h :: w) (c :: a ++ x) then 1 else 0)
          + occurrences (h :: w) (a ++ x)).
  rewrite (is_prefix_space h w c (a ++ x) Hh Hc). simpl. now apply IH.
Qed.

Lemma is_prefix_space_right (w x b : str) :
  forallb (fun c => negb (isspace c)) w = true -> forallb isspace b = true ->
  is_prefix w (x ++ b) = is_prefix w x.
Proof.
  intros Hw Hb. revert x. induction w as [|h w IH]; intros x; [reflexivity|].
  simpl in Hw. apply andb_true_iff in Hw. destruct Hw as [Hh Hw].
  apply negb_true_iff in Hh.
  destruct x as [|c x].
  - destruct b as [|c b]; [reflexivity|].
    simpl in Hb. apply andb_true_iff in Hb. destruct Hb as [Hc _].
    apply (is_prefix_space h w c b Hh Hc).
  - simpl. now rewrite IH.
Qed.

Lemma occurrences_space_right (w x b : str) :
  nonempty w = true -> forallb (fun c => negb (isspace c)) w = true ->
  forallb isspace b = true -> occurrences w (x ++ b) = occurrences w x.
Proof.
  intros Hne Hw Hb. induction x as [|c x IH].
  - simpl. rewrite <- (app_nil_r b).
    now rewrite (occurrences_space_left w b [] Hne Hw Hb).
  - change (occurrences w ((c :: x) ++ b))
      with ((if is_prefix w ((c :: x) ++ b) then 1 else 0) + occurrences w (x ++ b)).
    rewrite (is_prefix_space_right w (c :: x) b Hw Hb), IH. reflexivity.
Qed.

Lemma between_true (lo hi c : N) :
  between lo hi c = true -> (lo <= c <= hi)%N.
Proof.
  unfold between. intros H. apply andb_true_iff in H. destruct H as [H1 H2].
  apply N.leb_le in H1. apply N.leb_le in H2. lia.
Qed.

Lemma between_false (lo hi c : N) :
  (c < lo \/ hi < c)%N -> between lo hi c = false.
Proof.
  unfold between. intros [H|H].
  - apply andb_false_iff. left. apply N.leb_gt. exact H.
  - apply andb_false_iff. right. apply N.leb_gt. exact H.
Qed.

(** A whitespace character lies in one of these ranges. *)
Lemma isspace_ranges (c : char) :
  isspace c = true ->
  (9 <= c <= 13 \/ 28 <= c <= 32 \/ c = 133 \/ c = 160 \/ 5760 <= c)%N.
Proof.
  unfold isspace. intros H.
  repeat (apply orb_true_iff in H; destruct H as [H|H]);
    try (apply between_true in H); try (apply N.eqb_eq in H); lia.
Qed.

(** Lower-casing leaves whitespace alone. *)
Lemma lower_char_space (c : char) : isspace c = true -> lower_char c = [c].
Proof.
  intros H. unfold lower_char.
  destruct (N.eq_dec c 304) as [->|H304]; [discriminate H|].
  destruct (N.eq_dec c 8490) as [->|H8490]; [discriminate H|].
  apply isspace_ranges in H.
  rewrite (between_false 65 90 c), (between_false 192 214 c),
    (between_false 216 222 c) by lia.
  simpl.
  destruct (N.eqb_spec c 304); [contradiction|].
  destruct (N.eqb_spec c 8490); [contradiction|]. reflexivity.
Qed.

Lemma lower_space (a : str) : forallb isspace a = true -> lower a = a.
Proof.
  induction a as [|c a IH]; [reflexivity|]. simpl.
  intros H. apply andb_true_iff in H. destruct H as [Hc Ha].
  rewrite (lower_char_space c Hc), (IH Ha). reflexivity.
Qed.

(** Trimming the transcript before lower-casing it changes no keyword count. *)
Lemma occurrences_lower_strip (w t : str) :
  plain_word w = true ->
  occurrences w (lower (strip t)) = occurrences w (lower t).
Proof.
  unfold plain_word. intros H.
  apply andb_true_iff in H. destruct H as [H _].
  apply andb_true_iff in H. destruct H as [Hne Hw].
  destruct (strip_split t) as [a [b [Heq [Ha Hb]]]].
  rewrite Heq at 2. unfold lower. rewrite !flat_map_app.
  fold (lower a) (lower b) (lower (strip t)).
  rewrite (lower_space a Ha), (lower_space b Hb).
  rewrite (occurrences_space_left w a _ Hne Hw Ha).
  now rewrite (occurrences_space_right w _ b Hne Hw Hb).
Qed.

Lemma keywords_plain :
  forallb plain_word NEGATIVE_WORDS = true
  /\ forallb plain_word POSITIVE_WORDS = true.
Proof. split; vm_compute; reflexivity. Qed.

Lemma keyword_counts (words : list str) (t : str) :
  forallb plain_word words = true ->
  list_sum (map (fun w => count (lower (strip t)) w) words)
  = list_sum (map (fun w => occurrences w (lower t)) words).
Proof.
  intros H. f_equal. apply map_ext_in. intros w Hin.
  rewrite forallb_forall in H. specialize (H w Hin).
  rewrite (count_occurrences w _ H). now apply occurrences_lower_strip.
Qed.

(** C4: for every transcript the heuristic sentiment is the one the
    specification describes: lower-case the transcript, add up the substring
    occurrences of the ten negative terms as neg and of the six positive terms
    as pos, and answer Negative if neg > pos, Positive if pos > neg, Neutral
    otherwise. *)
Theorem C4_heuristic_sentiment (transcript : str) :
  snd (local_fallback transcript) = Spec.sentiment_spec transcript.
Proof.
  unfold local_fallback, classify, Spec.sentiment_spec. cbv beta zeta. cbn [snd].
  destruct keywords_plain as [Hneg Hpos].
  now rewrite (keyword_counts NEGATIVE_WORDS transcript Hneg),
    (keyword_counts POSITIVE_WORDS transcript Hpos).
Qed.

(** ** The decoder always finishes *)

Lemma dropwhile_length (p : char -> bool) (s : str) :
  length (dropwhile p s) <= length s.
Proof.
  induction s as [|c r IH]; simpl; [lia|].
  destruct (p c); simpl; lia.
Qed.

Lemma skip_ws_length (s : str) : length (Json.skip_ws s) <= length s.
Proof. apply dropwhile_length. Qed.

Lemma skip_ws_cons (s : str) (d : char) (r : str) :
  Json.skip_ws s = d :: r -> length r < length s.
Proof.
  intros H. pose proof (skip_ws_length s) as Hl. rewrite H in Hl. simpl in Hl. lia.
Qed.

Ltac break_match H :=
  match type of H with
  | context [match ?x with _ => _ end] => destruct x eqn:?
  end.

(** [scanstring] consumes at least the closing quote. *)
Lemma scanstring_shorter (n : nat) :
  forall s acc k r,
    length s <= n -> Json.scanstring s acc = Json.Found k r -> length r < length s.
Proof.
  induction n as [|n IH]; intros s acc k r Hn H.
  - destruct s; [discriminate | simpl in Hn; lia].
  - destruct s as [|c s]; [discriminate|].
    simpl in Hn. cbn [Json.scanstring] in H.
    repeat (break_match H; try discriminate);
      try (injection H as _ <-);
      subst; cbn [length] in *;
      try (apply IH in H; cbn [length] in *; lia); try lia.
Qed.

Lemma keyword_shorter (w : str) (v v' : Json.value) (s r : str) :
  Spec.nonempty w = true ->
  Json.keyword w v s = Some (Json.Found v' r) -> length r < length s.
Proof.
  unfold Json.keyword. intros Hw H.
  destruct (is_prefix w s) eqn:Hp; [|discriminate].
  injection H as _ <-. rewrite length_skipn.
  apply is_prefix_split in Hp. apply (f_equal (@length char)) in Hp.
  rewrite length_app in Hp. destruct w; [discriminate|]. simpl in *. lia.
Qed.

Lemma keyword_found (w : str) (v : Json.value) (s : str) (x : Json.scan Json.value) :
  Json.keyword w v s = Some x -> exists r, x = Json.Found v r.
Proof.
  unfold Json.keyword. destruct (is_prefix w s); [|discriminate].
  intros H. injection H as <-. eexists. reflexivity.
Qed.

Lemma int_part_shorter (s r : str) :
  Json.int_part s = Some r -> length r < length s.
Proof.
  destruct s as [|c s]; [discriminate|]. simpl.
  destruct (between 49 57 c).
  - intros H. injection H as <-.
    pose proof (dropwhile_length Json.is_digit s). unfold Json.skip_digits. lia.
  - destruct (c =? 48)%N; [|discriminate]. intros H. injection H as <-. lia.
Qed.

Lemma frac_part_length (s : str) : length (Json.frac_part s) <= length s.
Proof.
  destruct s as [|c [|d r]]; simpl; try lia.
  destruct ((c =? 46)%N && Json.is_digit d); simpl; [|lia].
  pose proof (dropwhile_length Json.is_digit r). unfold Json.skip_digits. lia.
Qed.

Lemma exp_part_length (s : str) : length (Json.exp_part s) <= length s.
Proof.
  destruct s as [|c r]; simpl; [lia|].
  destruct ((c =? 101) || (c =? 69))%N; simpl; [|lia].
  destruct r as [|d r1]; simpl; [lia|].
  destruct (Json.is_digit d).
  - pose proof (dropwhile_length Json.is_digit r1). unfold Json.skip_digits. lia.
  - destruct ((d =? 45) || (d =? 43))%N; simpl; [|lia].
    destruct r1 as [|d1 r2]; simpl; [lia|].
    destruct (Json.is_digit d1); simpl; [|lia].
    pose proof (dropwhile_length Json.is_digit r2). unfold Json.skip_digits. lia.
Qed.

Lemma match_number_shorter (L : Json.limits) (s : str) (v : Json.value) (r : str) :
  Json.match_number L s = Json.Found v r -> length r < length s.
Proof.
  unfold Json.match_number.
  match goal with
  | |- context [Json.int_part ?b] => remember b as body eqn:Hbody
  end.
  assert (Hb : length body <= length s).
  { subst body. destruct s as [|c r']; simpl; [lia|].
    destruct (c =? 45)%N; simpl; lia. }
  destruct (Json.int_part body) as [r0|] eqn:Hi; [|discriminate].
  destruct (_ && _); [discriminate|].
  intros H. injection H as _ <-.
  apply int_part_shorter in Hi.
  pose proof (exp_part_length (Json.frac_part r0)).
  pose proof (frac_part_length r0).
  lia.
Qed.

Lemma match_number_not_starved (L : Json.limits) (s : str) :
  Json.match_number L s <> Json.Starved /\ Json.match_number L s <> Json.TooDeep.
Proof.
  unfold Json.match_number.
  destruct (Json.int_part _); [|split; discriminate].
  destruct (_ && _); split; discriminate.
Qed.

Lemma constant_shorter (L : Json.limits) (s : str) (v : Json.value) (r : str) :
  Json.constant L s = Json.Found v r -> length r < length s.
Proof.
  unfold Json.constant. intros H.
  repeat match type of H with
  | match Json.keyword ?w ?v ?s with _ => _ end = _ =>
      let K := fresh "K" in
      destruct (Json.keyword w v s) eqn:K;
      [subst; eapply keyword_shorter; [|exact K]; reflexivity|]
  end.
  now apply match_number_shorter in H.
Qed.

Lemma constant_not_starved (L : Json.limits) (s : str) :
  Json.constant L s <> Json.Starved.
Proof.
  unfold Json.constant.
  repeat match goal with
  | |- match Json.keyword ?w ?v ?s with _ => _ end <> _ =>
      let K := fresh "K" in
      destruct (Json.keyword w v s) eqn:K;
      [apply keyword_found in K; destruct K as [? ->]; discriminate|]
  end.
  apply match_number_not_starved.
Qed.

(** A string is scanned the same way under all limits: it ends in a text or
    in a syntax error. *)
Lemma scanstring_settled (s acc : str) : Json.settled (Json.scanstring s acc).
Proof.
  remember (length s) as n eqn:Hn. revert s acc Hn.
  induction n as [n IH] using lt_wf_ind. intros s acc Hn.
  destruct s as [|c s]; [exact I|].
  cbn [Json.scanstring].
  repeat match goal with
  | |- context [match ?x with _ => _ end] => destruct x eqn:?
  end; try exact I;
  subst; cbn [length] in *;
  (eapply IH; [|reflexivity]; cbn [length]; lia).
Qed.

Lemma scanstring_not_starved (s acc : str) : Json.scanstring s acc <> Json.Starved.
Proof.
  pose proof (scanstring_settled s acc) as H.
  destruct (Json.scanstring s acc); try discriminate. destruct H.
Qed.

(** Every value the scanner finds takes at least one character. *)
Lemma scan_shorter (L : Json.limits) (f : nat) :
  (forall d s v r, Json.scan_once L f d s = Json.Found v r -> length r < length s)
  /\ (forall d s acc v r,
        Json.members L f d s acc = Json.Found v r -> length r < length s)
  /\ (forall d s acc v r,
        Json.elements L f d s acc = Json.Found v r -> length r < length s).
Proof.
  induction f as [|f [IHs [IHm IHe]]]; [repeat split; discriminate|].
  split; [|split].
  - intros d [|c s] v r H; [discriminate|].
    cbn [Json.scan_once] in H.
    destruct (c =? 34)%N.
    { destruct (Json.scanstring s []) eqn:Hk; try discriminate.
      injection H as _ <-.
      apply (scanstring_shorter (length s)) in Hk; simpl; lia. }
    destruct (c =? 123)%N.
    { destruct d as [|d]; [discriminate|].
      destruct (Json.skip_ws s) as [|x r'] eqn:Hw; [discriminate|].
      pose proof (skip_ws_length s) as Hl. rewrite Hw in Hl.
      destruct (x =? 125)%N.
      - injection H as _ <-. simpl in *. lia.
      - apply IHm in H. simpl in *. lia. }
    destruct (c =? 91)%N.
    { destruct d as [|d]; [discriminate|].
      destruct (Json.skip_ws s) as [|x r'] eqn:Hw; [discriminate|].
      pose proof (skip_ws_length s) as Hl. rewrite Hw in Hl.
      destruct (x =? 93)%N.
      - injection H as _ <-. simpl in *. lia.
      - apply IHe in H. simpl in *. lia. }
    now apply constant_shorter in H.
  - intros d [|q s] acc v r H; [discriminate|].
    cbn [Json.members] in H.
    destruct (q =? 34)%N; [|discriminate].
    destruct (Json.scanstring s []) as [k r1| | | |] eqn:Hk; try discriminate.
    apply (scanstring_shorter (length s)) in Hk; [|lia].
    destruct (Json.skip_ws r1) as [|colon r2] eqn:H1; [discriminate|].
    apply skip_ws_cons in H1.
    destruct (colon =? 58)%N; [|discriminate].
    destruct (Json.scan_once L f d (Json.skip_ws r2)) as [v1 r3| | | |] eqn:Hv;
      try discriminate.
    apply IHs in Hv. pose proof (skip_ws_length r2).
    destruct (Json.skip_ws r3) as [|x r4] eqn:H3; [discriminate|].
    apply skip_ws_cons in H3.
    destruct (x =? 125)%N.
    + injection H as _ <-. simpl. lia.
    + destruct (x =? 44)%N; [|discriminate].
      apply IHm in H. pose proof (skip_ws_length r4). simpl. lia.
  - intros d s acc v r H.
    cbn [Json.elements] in H.
    destruct (Json.scan_once L f d s) as [v1 r1| | | |] eqn:Hv; try discriminate.
    apply IHs in Hv.
    destruct (Json.skip_ws r1) as [|x r2] eqn:H1; [discriminate|].
    apply skip_ws_cons in H1.
    destruct (x =? 93)%N.
    + injection H as _ <-. lia.
    + destruct (x =? 44)%N; [|discriminate].
      apply IHe in H. pose proof (skip_ws_length r2). lia.
Qed.

(** A budget of twice the length of the text is never used up. *)
Lemma scan_not_starved (L : Json.limits) (f : nat) :
  (forall d s, 2 * length s < f -> Json.scan_once L f d s <> Json.Starved)
  /\ (forall d s acc,
        2 * length s + 1 < f -> Json.members L f d s acc <> Json.Starved)
  /\ (forall d s acc,
        2 * length s + 1 < f -> Json.elements L f d s acc <> Json.Starved).
Proof.
  induction f as [|f [IHs [IHm IHe]]]; [repeat split; intros; lia|].
  split; [|split].
  - intros d [|c s] Hf; [discriminate|].
    cbn [Json.scan_once]. simpl in Hf.
    destruct (c =? 34)%N.
    { pose proof (scanstring_not_starved s []).
      destruct (Json.scanstring s []); congruence. }
    destruct (c =? 123)%N.
    { destruct d as [|d]; [discriminate|].
      destruct (Json.skip_ws s) as [|x r'] eqn:Hw; [discriminate|].
      pose proof (skip_ws_length s) as Hl. rewrite Hw in Hl.
      destruct (x =? 125)%N; [discriminate|].
      apply IHm. lia. }
    destruct (c =? 91)%N.
    { destruct d as [|d]; [discriminate|].
      destruct (Json.skip_ws s) as [|x r'] eqn:Hw; [discriminate|].
      pose proof (skip_ws_length s) as Hl. rewrite Hw in Hl.
      destruct (x =? 93)%N; [discriminate|].
      apply IHe. lia. }
    apply constant_not_starved.
  - intros d [|q s] acc Hf; [discriminate|].
    cbn [Json.members]. simpl in Hf.
    destruct (q =? 34)%N; [|discriminate].
    pose proof (scanstring_not_starved s []) as Hns.
    destruct (Json.scanstring s []) as [k r1| | | |] eqn:Hk;
      try congruence; try discriminate.
    apply (scanstring_shorter (length s)) in Hk; [|lia].
    destruct (Json.skip_ws r1) as [|colon r2] eqn:H1; [discriminate|].
    apply skip_ws_cons in H1.
    destruct (colon =? 58)%N; [|discriminate].
    pose proof (skip_ws_length r2).
    assert (Hs : Json.scan_once L f d (Json.skip_ws r2) <> Json.Starved)
      by (apply IHs; lia).
    destruct (Json.scan_once L f d (Json.skip_ws r2)) as [v1 r3| | | |] eqn:Hv;
      try congruence; try discriminate.
    apply (proj1 (scan_shorter L f)) in Hv.
    destruct (Json.skip_ws r3) as [|x r4] eqn:H3; [discriminate|].
    apply skip_ws_cons in H3.
    destruct (x =? 125)%N; [discriminate|].
    destruct (x =? 44)%N; [|discriminate].
    apply IHm. pose proof (skip_ws_length r4). lia.
  - intros d s acc Hf.
    cbn [Json.elements].
    assert (Hs : Json.scan_once L f d s <> Json.Starved) by (apply IHs; lia).
    destruct (Json.scan_once L f d s) as [v1 r1| | | |] eqn:Hv;
      try congruence; try discriminate.
    apply (proj1 (scan_shorter L f)) in Hv.
    destruct (Json.skip_ws r1) as [|x r2] eqn:H1; [discriminate|].
    apply skip_ws_cons in H1.
    destruct (x =? 93)%N; [discriminate|].
    destruct (x =? 44)%N; [|discriminate].
    apply IHe. pose proof (skip_ws_length r2). lia.
Qed.

Lemma decode_not_starved (L : Json.limits) (s : str) :
  Json.decode L s <> Json.Starved.
Proof.
  unfold Json.decode.
  pose proof (proj1 (scan_not_starved L (2 * length (Json.skip_ws s) + 1))
                (Json.max_depth L) (Json.skip_ws s)) as H.
  destruct (Json.scan_once _ _ _ _) as [v r| | | |]; try discriminate.
  - destruct (Json.skip_ws r); discriminate.
  - intros _. apply H; [lia | reflexivity].
Qed.

(** [json.loads] on a [str] returns a value or raises one of three
    exceptions, each for its own reason. *)
Lemma loads_total (L : Json.limits) (s : str) :
  (exists v, Json.loads L s = Val v)
  \/ Json.loads L s = Raise JSONDecodeError
  \/ (Json.loads L s = Raise RecursionError /\ Json.decode L s = Json.TooDeep)
  \/ (Json.loads L s = Raise ValueError /\ Json.decode L s = Json.TooLong).
Proof.
  unfold Json.loads. destruct (is_prefix _ s); [right; now left|].
  pose proof (decode_not_starved L s) as H.
  destruct (Json.decode L s) as [v r| | | |].
  - left. now exists v.
  - right. now left.
  - now contradiction H.
  - right. right. left. now split.
  - right. right. right. now split.
Qed.

(** ** Wider limits change no result *)

Lemma match_number_mono (L1 L2 : Json.limits) (s : str) :
  Json.admits_more L1 L2 ->
  Json.settled (Json.match_number L1 s) ->
  Json.match_number L2 s = Json.match_number L1 s.
Proof.
  intros [_ Hd]. unfold Json.match_number.
  destruct (Json.int_part _) as [r|]; [|reflexivity].
  destruct (negb (negb _)) eqn:Hf; cbn [andb]; [|reflexivity].
  destruct (Json.too_many_digits L1 _) eqn:H1; [intros []|].
  destruct (Json.too_many_digits L2 _) eqn:H2; [|reflexivity].
  apply Hd in H2. congruence.
Qed.

Lemma constant_mono (L1 L2 : Json.limits) (s : str) :
  Json.admits_more L1 L2 ->
  Json.settled (Json.constant L1 s) ->
  Json.constant L2 s = Json.constant L1 s.
Proof.
  intros HL. unfold Json.constant.
  repeat match goal with
  | |- context [match Json.keyword ?w ?v ?s with _ => _ end] =>
      destruct (Json.keyword w v s); [reflexivity|]
  end.
  now apply match_number_mono.
Qed.

(** A scan that met no limit gives the same result under wider limits. *)
Lemma scan_mono (L1 L2 : Json.limits) (f : nat) :
  Json.admits_more L1 L2 ->
  (forall d1 d2 s,
      d1 <= d2 -> Json.settled (Json.scan_once L1 f d1 s) ->
      Json.scan_once L2 f d2 s = Json.scan_once L1 f d1 s)
  /\ (forall d1 d2 s acc,
        d1 <= d2 -> Json.settled (Json.members L1 f d1 s acc) ->
        Json.members L2 f d2 s acc = Json.members L1 f d1 s acc)
  /\ (forall d1 d2 s acc,
        d1 <= d2 -> Json.settled (Json.elements L1 f d1 s acc) ->
        Json.elements L2 f d2 s acc = Json.elements L1 f d1 s acc).
Proof.
  intros HL.
  induction f as [|f [IHs [IHm IHe]]]; [repeat split; intros ? ? ? ? ? []|].
  split; [|split].
  - intros d1 d2 [|c s] Hd; [reflexivity|].
    cbn [Json.scan_once].
    destruct (c =? 34)%N; [reflexivity|].
    destruct (c =? 123)%N.
    { destruct d1 as [|d1]; [intros []|]. destruct d2 as [|d2]; [lia|].
      destruct (Json.skip_ws s) as [|x r']; [reflexivity|].
      destruct (x =? 125)%N; [reflexivity|]. apply IHm. lia. }
    destruct (c =? 91)%N.
    { destruct d1 as [|d1]; [intros []|]. destruct d2 as [|d2]; [lia|].
      destruct (Json.skip_ws s) as [|x r']; [reflexivity|].
      destruct (x =? 93)%N; [reflexivity|]. apply IHe. lia. }
    now apply constant_mono.
  - intros d1 d2 [|q s] acc Hd; [reflexivity|].
    cbn [Json.members].
    destruct (q =? 34)%N; [|reflexivity].
    destruct (Json.scanstring s []) as [k r1| | | |]; try reflexivity.
    destruct (Json.skip_ws r1) as [|colon r2]; [reflexivity|].
    destruct (colon =? 58)%N; [|reflexivity].
    intros Hset.
    assert (Hv : Json.settled (Json.scan_once L1 f d1 (Json.skip_ws r2))).
    { destruct (Json.scan_once L1 f d1 (Json.skip_ws r2)); try exact I;
        destruct Hset. }
    rewrite (IHs d1 d2 _ Hd Hv).
    destruct (Json.scan_once L1 f d1 (Json.skip_ws r2)) as [v r3| | | |];
      try reflexivity.
    destruct (Json.skip_ws r3) as [|x r4]; [reflexivity|].
    destruct (x =? 125)%N; [reflexivity|].
    destruct (x =? 44)%N; [|reflexivity].
    now apply IHm.
  - intros d1 d2 s acc Hd.
    cbn [Json.elements]. intros Hset.
    assert (Hv : Json.settled (Json.scan_once L1 f d1 s)).
    { destruct (Json.scan_once L1 f d1 s); try exact I; destruct Hset. }
    rewrite (IHs d1 d2 _ Hd Hv).
    destruct (Json.scan_once L1 f d1 s) as [v r1| | | |]; try reflexivity.
    destruct (Json.skip_ws r1) as [|x r2]; [reflexivity|].
    destruct (x =? 93)%N; [reflexivity|].
    destruct (x =? 44)%N; [|reflexivity].
    now apply IHe.
Qed.

Lemma decode_mono (L1 L2 : Json.limits) (s : str) :
  Json.admits_more L1 L2 ->
  Json.settled (Json.decode L1 s) -> Json.decode L2 s = Json.decode L1 s.
Proof.
  intros HL. unfold Json.decode. intros Hset.
  assert (Hv : Json.settled
                 (Json.scan_once L1 (2 * length (Json.skip_ws s) + 1)
                    (Json.max_depth L1) (Json.skip_ws s))).
  { destruct (Json.scan_once L1 _ _ _); try exact I; destruct Hset. }
  rewrite (proj1 (scan_mono L1 L2 _ HL) _ _ _ (proj1 HL) Hv). reflexivity.
Qed.

(** What [json.loads] returns, and the syntax errors it raises, stay under
    wider limits. *)
Lemma loads_mono (L1 L2 : Json.limits) (s : str) :
  Json.admits_more L1 L2 ->
  (forall v, Json.loads L1 s = Val v -> Json.loads L2 s = Val v)
  /\ (Json.loads L1 s = Raise JSONDecodeError ->
      Json.loads L2 s = Raise JSONDecodeError).
Proof.
  intros HL. unfold Json.loads.
  destruct (is_prefix _ s); [split; [discriminate | reflexivity]|].
  pose proof (decode_mono L1 L2 s HL) as Hm.
  destruct (Json.decode L1 s) as [v r| | | |];
    try (split; [discriminate | discriminate]).
  - rewrite (Hm I). split; [trivial | discriminate].
  - rewrite (Hm I). split; [discriminate | trivial].
Qed.

(** Every interpreter that can enter an object at all admits what the
    narrowest limits admit. *)
Lemma tight_admits (L : Json.limits) :
  1 <= Json.max_depth L -> Json.admits_more Json.tight L.
Proof.
  intros H. split; [exact H|]. intros n. unfold Json.too_many_digits.
  intros Hn. apply andb_true_iff in Hn. destruct Hn as [Hn _].
  apply andb_true_iff in Hn. destruct Hn as [Hn _].
  rewrite Hn. apply Nat.ltb_lt in Hn. cbn [Json.max_digits Json.tight].
  apply andb_true_iff. split; [reflexivity | now apply Nat.ltb_lt].
Qed.

Lemma narrowest_admits (L : Json.limits) : Json.admits_more Json.narrowest L.
Proof.
  split; [apply Nat.le_0_l|]. intros n. unfold Json.too_many_digits.
  intros Hn. apply andb_true_iff in Hn. destruct Hn as [Hn _].
  apply andb_true_iff in Hn. destruct Hn as [Hn _].
  rewrite Hn. apply Nat.ltb_lt in Hn. cbn [Json.max_digits Json.narrowest].
  apply andb_true_iff. split; [reflexivity | now apply Nat.ltb_lt].
Qed.

(** ** The brace search *)

Lemma upto_last_close_none (s : str) :
  ~ In 125%N s -> upto_last_close s = None.
Proof.
  induction s as [|c r IH]; [reflexivity|].
  intros H. simpl. rewrite IH by (intros Hin; apply H; now right).
  destruct (N.eqb_spec c 125) as [->|_]; [|reflexivity].
  exfalso. apply H. now left.
Qed.

Lemma upto_last_close_last (mid post : str) :
  ~ In 125%N post ->
  upto_last_close (mid ++ 125%N :: post) = Some (mid ++ [125%N]).
Proof.
  intros H. induction mid as [|c mid IH]; simpl.
  - now rewrite (upto_last_close_none post H).
  - now rewrite IH.
Qed.

(** The search is greedy: the match runs from the first opening brace to the
    last closing brace of the text. *)
Lemma search_braces_greedy (pre mid post : str) :
  ~ In 123%N pre -> ~ In 125%N post ->
  search_braces (pre ++ 123%N :: mid ++ 125%N :: post)
  = Some (123%N :: mid ++ [125%N]).
Proof.
  intros Hpre Hpost. induction pre as [|c pre IH]; simpl.
  - now rewrite (upto_last_close_last mid post Hpost).
  - destruct (N.eqb_spec c 123) as [->|_].
    + exfalso. apply Hpre. now left.
    + apply IH. intros Hin. apply Hpre. now right.
Qed.

(** ** The reply parser *)

Lemma fields_strings (members : list (str * Json.value)) (sm st : str) :
  Json.get (Json.JObj members) (lit "summary") [] = Val (Json.JStr sm) ->
  Json.get (Json.JObj members) (lit "sentiment") [] = Val (Json.JStr st) ->
  fields (Json.JObj members) = Val (strip sm, strip st).
Proof.
  intros H1 H2. unfold fields. rewrite H1. cbn [ebind Json.strip_value].
  rewrite H2. reflexivity.
Qed.

(** Whatever [fields] returns comes from an object with two string fields. *)
Lemma fields_inv (parsed : Json.value) (p : str * str) :
  fields parsed = Val p ->
  exists members sm st,
    parsed = Json.JObj members
    /\ Json.get parsed (lit "summary") [] = Val (Json.JStr sm)
    /\ Json.get parsed (lit "sentiment") [] = Val (Json.JStr st)
    /\ p = (strip sm, strip st).
Proof.
  unfold fields. intros H.
  destruct parsed as [| | | |items|members];
    try (cbn [Json.get ebind] in H; discriminate).
  destruct (Json.get (Json.JObj members) (lit "summary") []) as [a|] eqn:Ha;
    [|discriminate].
  cbn [ebind] in H.
  destruct a as [| | |sm| |]; try discriminate. cbn [Json.strip_value ebind] in H.
  destruct (Json.get (Json.JObj members) (lit "sentiment") []) as [b|] eqn:Hb;
    [|discriminate].
  cbn [ebind] in H.
  destruct b as [| | |st| |]; try discriminate. cbn [Json.strip_value ebind] in H.
  injection H as <-. now exists members, sm, st.
Qed.

(** The three ways out of the parser on a [str]. *)
Lemma parse_cases (L : Json.limits) (raw : str) :
  (exists parsed p,
      Json.loads L raw = Val parsed /\ fields parsed = Val p
      /\ parse L raw = Val p)
  \/ (exists block parsed p,
        search_braces raw = Some block /\ Json.loads L block = Val parsed
        /\ fields parsed = Val p /\ parse L raw = Val p)
  \/ parse L raw = Val (strip raw, lit "Unknown").
Proof.
  unfold parse, parse_generated. cbn [loads_generated search_generated ebind].
  assert (Hrest :
    (exists block parsed p,
        search_braces raw = Some block /\ Json.loads L block = Val parsed
        /\ fields parsed = Val p
        /\ match search_braces raw with
           | Some block =>
               etry (parsed <~ Json.loads L block ;; fields parsed)
                    (fun _ => fall_through (Some raw))
           | None => fall_through (Some raw)
           end = Val p)
    \/ match search_braces raw with
       | Some block =>
           etry (parsed <~ Json.loads L block ;; fields parsed)
                (fun _ => fall_through (Some raw))
       | None => fall_through (Some raw)
       end = Val (strip raw, lit "Unknown")).
  { destruct (search_braces raw) as [block|]; [|now right].
    destruct (Json.loads L block) as [parsed|e] eqn:Hb; cbn [ebind etry];
      [|now right].
    destruct (fields parsed) as [p|e] eqn:Hf; cbn [etry]; [|now right].
    left. now exists block, parsed, p. }
  destruct (Json.loads L raw) as [parsed|e] eqn:Hl; cbn [ebind etry].
  - destruct (fields parsed) as [p|e] eqn:Hf; cbn [etry].
    + left. now exists parsed, p.
    + right. exact Hrest.
  - right. exact Hrest.
Qed.

Lemma parse_total (L : Json.limits) (raw : str) : exists p, parse L raw = Val p.
Proof.
  destruct (parse_cases L raw)
    as [[parsed [p [_ [_ H]]]]|[[b [parsed [p [_ [_ [_ H]]]]]]|H]];
    eexists; exact H.
Qed.

(** A reply that is [None] makes the parser raise; only a [str] is parsed. *)
Lemma parse_generated_val (L : Json.limits) (generated : option str)
  (p : str * str) :
  parse_generated L generated = Val p ->
  exists raw, generated = Some raw /\ parse L raw = Val p.
Proof.
  destruct generated as [raw|]; [|discriminate].
  intros H. now exists raw.
Qed.

(** When both strict parses raise, or the first raises and there is no
    block, the parser falls through to line 74. *)
Lemma parse_fall_through (L : Json.limits) (raw : str) (e : exn) :
  Json.loads L raw = Raise e ->
  (search_braces raw = None
   \/ exists block e', search_braces raw = Some block
                       /\ Json.loads L block = Raise e') ->
  parse L raw = Val (strip raw, lit "Unknown").
Proof.
  intros Hl Hb. unfold parse, parse_generated.
  cbn [loads_generated search_generated]. rewrite Hl. cbn [ebind etry].
  destruct Hb as [->|[block [e' [-> Hb]]]]; [reflexivity|].
  rewrite Hb. reflexivity.
Qed.

(** The field extraction and the notion of an answer agree. *)
Lemma answer_fields (L : Json.limits) (text : str) :
  answer L text
  = match Json.loads L text with
    | Val v => match fields v with Val p => Some p | Raise _ => None end
    | Raise _ => None
    end.
Proof.
  unfold answer. destruct (Json.loads L text) as [v|e]; [|reflexivity].
  destruct v as [| | | | |members]; try reflexivity.
  unfold fields, text_field, Json.get.
  destruct (Json.lookup (lit "summary") members) as [[| | | | |]|];
    cbn [ebind Json.strip_value]; try reflexivity;
    destruct (Json.lookup (lit "sentiment") members) as [[| | | | |]|];
    reflexivity.
Qed.

(** The parser returns the answer the reply holds, and otherwise the reply
    itself, trimmed, with the sentiment "Unknown". *)
Lemma parse_chosen (L : Json.limits) (raw : str) :
  parse L raw
  = Val match chosen L raw with
        | Some p => p
        | None => (strip raw, lit "Unknown")
        end.
Proof.
  unfold chosen. rewrite (answer_fields L raw).
  unfold parse, parse_generated.
  cbn [loads_generated search_generated ebind].
  assert (Hrest :
    match search_braces raw with
    | Some block =>
        etry (parsed <~ Json.loads L block ;; fields parsed)
             (fun _ => fall_through (Some raw))
    | None => fall_through (Some raw)
    end
    = Val match match search_braces raw with
                | Some block => answer L block
                | None => None
                end with
          | Some p => p
          | None => (strip raw, lit "Unknown")
          end).
  { destruct (search_braces raw) as [block|]; [|reflexivity].
    rewrite (answer_fields L block).
    destruct (Json.loads L block) as [v|e]; [|reflexivity].
    cbn [ebind]. destruct (fields v); reflexivity. }
  destruct (Json.loads L raw) as [v|e]; cbn [ebind etry]; [|exact Hrest].
  destruct (fields v); [reflexivity | exact Hrest].
Qed.

(** C6: the reply parser is total: on every raw string it returns a pair;
    when the strict parse of the whole string fails and either no
    brace-delimited block is found or the strict parse of the block fails too,
    the pair is the raw string trimmed of whitespace and "Unknown"; so it is on
    'I cannot help with that.'.  All of it holds whatever the limits of the
    interpreter are. *)
Theorem C6_parser_total :
  (forall L raw, exists p, parse L raw = Val p)
  /\ (forall L raw e,
        Json.loads L raw = Raise e ->
        (search_braces raw = None
         \/ exists block e', search_braces raw = Some block
                             /\ Json.loads L block = Raise e') ->
        parse L raw = Val (strip raw, lit "Unknown"))
  /\ (forall L,
        parse L Sample.refusal
        = Val (lit "I cannot help with that.", lit "Unknown")).
Proof.
  split; [exact parse_total|]. split; [exact parse_fall_through|].
  intros L.
  change (lit "I cannot help with that.") with (strip Sample.refusal).
  apply (parse_fall_through L Sample.refusal JSONDecodeError).
  - apply (proj2 (loads_mono Json.narrowest L _ (narrowest_admits L))).
    vm_compute. reflexivity.
  - left. vm_compute. reflexivity.
Qed.

Lemma C6_parser_total_witness :
  parse Json.cpython Sample.refusal = Val (strip Sample.refusal, lit "Unknown").
Proof.
  apply (proj1 (proj2 C6_parser_total) Json.cpython Sample.refusal JSONDecodeError).
  - vm_compute. reflexivity.
  - left. vm_compute. reflexivity.
Defined.

(** C7 as stated fails: this reply is a strict JSON object and its sentiment
    field is the string "Positive", yet the parser does not return the
    fields: the summary is a number, [strip] raises on it, and the parser
    answers the raw text and "Unknown". *)
Lemma C7_counterexample :
  Json.loads Json.cpython Sample.numeric_summary
  = Val (Json.JObj [(lit "summary", Json.JNum (lit "5"));
                    (lit "sentiment", Json.JStr (lit "Positive"))])
  /\ parse Json.cpython Sample.numeric_summary
     = Val (Sample.numeric_summary, lit "Unknown")
  /\ (forall sm, parse Json.cpython Sample.numeric_summary
                 <> Val (sm, lit "Positive")).
Proof.
  split; [vm_compute; reflexivity|].
  assert (H : parse Json.cpython Sample.numeric_summary
              = Val (Sample.numeric_summary, lit "Unknown"))
    by (vm_compute; reflexivity).
  split; [exact H|]. intros sm. rewrite H. intros Heq.
  injection Heq as _ Heq. vm_compute in Heq. discriminate.
Qed.

(** C7, amended: when [json.loads] reads the entire raw string as a JSON
    object (which includes that the limits of the interpreter admit it) and
    the summary and sentiment fields of the object are each absent (then
    taken as the empty string) or a string, the parser returns the two
    fields trimmed of whitespace; on '{"summary": "S", "sentiment":
    "Positive"}' it returns ("S", "Positive") in every interpreter that still
    admits one level of nesting. *)
Theorem C7_parser_strict_object :
  (forall L raw members sm st,
      Json.loads L raw = Val (Json.JObj members) ->
      Json.get (Json.JObj members) (lit "summary") [] = Val (Json.JStr sm) ->
      Json.get (Json.JObj members) (lit "sentiment") [] = Val (Json.JStr st) ->
      parse L raw = Val (strip sm, strip st))
  /\ (forall L, 1 <= Json.max_depth L ->
        parse L Sample.strict_reply = Val (lit "S", lit "Positive")).
Proof.
  assert (G : forall L raw members sm st,
      Json.loads L raw = Val (Json.JObj members) ->
      Json.get (Json.JObj members) (lit "summary") [] = Val (Json.JStr sm) ->
      Json.get (Json.JObj members) (lit "sentiment") [] = Val (Json.JStr st) ->
      parse L raw = Val (strip sm, strip st)).
  { intros L raw members sm st Hl Hsm Hst. unfold parse, parse_generated.
    cbn [loads_generated]. rewrite Hl. cbn [ebind].
    rewrite (fields_strings members sm st Hsm Hst). reflexivity. }
  split; [exact G|]. intros L HL.
  change (Val (lit "S", lit "Positive"))
    with (Val (A := str * str) (strip (lit "S"), strip (lit "Positive"))).
  apply (G L Sample.strict_reply
           [(lit "summary", Json.JStr (lit "S"));
            (lit "sentiment", Json.JStr (lit "Positive"))]);
    [|reflexivity|reflexivity].
  apply (proj1 (loads_mono Json.tight L _ (tight_admits L HL))).
  vm_compute. reflexivity.
Qed.

Lemma C7_parser_strict_object_witness :
  parse Json.cpython Sample.strict_reply
  = Val (strip (lit "S"), strip (lit "Positive")).
Proof.
  apply (proj1 C7_parser_strict_object Json.cpython Sample.strict_reply
           [(lit "summary", Json.JStr (lit "S"));
            (lit "sentiment", Json.JStr (lit "Positive"))]);
    vm_compute; reflexivity.
Defined.

(** C8 as stated fails: this reply is not strict JSON and its brace-delimited
    block parses as a JSON object with the sentiment "Positive", yet the
    parser answers the raw text and "Unknown", because the summary of the
    block is a number. *)
Lemma C8_counterexample :
  Json.loads Json.cpython Sample.wrapped_numeric = Raise JSONDecodeError
  /\ search_braces Sample.wrapped_numeric = Some Sample.numeric_summary
  /\ Json.loads Json.cpython Sample.numeric_summary
     = Val (Json.JObj [(lit "summary", Json.JNum (lit "5"));
                       (lit "sentiment", Json.JStr (lit "Positive"))])
  /\ parse Json.cpython Sample.wrapped_numeric
     = Val (Sample.wrapped_numeric, lit "Unknown")
  /\ (forall sm, parse Json.cpython Sample.wrapped_numeric
                 <> Val (sm, lit "Positive")).
Proof.
  assert (H : parse Json.cpython Sample.wrapped_numeric
              = Val (Sample.wrapped_numeric, lit "Unknown"))
    by (vm_compute; reflexivity).
  repeat (split; [vm_compute; reflexivity|]).
  intros sm. rewrite H. intros Heq.
  injection Heq as _ Heq. vm_compute in Heq. discriminate.
Qed.

(** C8, amended: when [json.loads] raises on the raw string but reads the
    brace-delimited block found in it (from its first opening brace to its
    last closing brace) as a JSON object, which includes that the limits of
    the interpreter admit the block, and the summary and sentiment fields of
    that object are each absent or a string, the parser returns the fields of
    the block, trimmed; on the reply wrapped in 'Sure! Here is the result: ...
    Hope this helps!' it returns ("Customer had a billing issue.",
    "Negative") in every interpreter that still admits one level of
    nesting. *)
Theorem C8_parser_embedded_object :
  (forall L raw e block members sm st,
      Json.loads L raw = Raise e ->
      search_braces raw = Some block ->
      Json.loads L block = Val (Json.JObj members) ->
      Json.get (Json.JObj members) (lit "summary") [] = Val (Json.JStr sm) ->
      Json.get (Json.JObj members) (lit "sentiment") [] = Val (Json.JStr st) ->
      parse L raw = Val (strip sm, strip st))
  /\ (forall L, 1 <= Json.max_depth L ->
        parse L Sample.wrapped_reply
        = Val (lit "Customer had a billing issue.", lit "Negative")).
Proof.
  assert (G : forall L raw e block members sm st,
      Json.loads L raw = Raise e ->
      search_braces raw = Some block ->
      Json.loads L block = Val (Json.JObj members) ->
      Json.get (Json.JObj members) (lit "summary") [] = Val (Json.JStr sm) ->
      Json.get (Json.JObj members) (lit "sentiment") [] = Val (Json.JStr st) ->
      parse L raw = Val (strip sm, strip st)).
  { intros L raw e block members sm st Hl Hs Hb Hsm Hst.
    unfold parse, parse_generated.
    cbn [loads_generated search_generated]. rewrite Hl. cbn [ebind etry].
    rewrite Hs, Hb. cbn [ebind].
    rewrite (fields_strings members sm st Hsm Hst). reflexivity. }
  split; [exact G|]. intros L HL.
  change (Val (lit "Customer had a billing issue.", lit "Negative"))
    with (Val (A := str * str)
            (strip (lit "Customer had a billing issue."), strip (lit "Negative"))).
  apply (G L Sample.wrapped_reply JSONDecodeError
           (dq "{'summary': 'Customer had a billing issue.', 'sentiment': 'Negative'}")
           [(lit "summary", Json.JStr (lit "Customer had a billing issue."));
            (lit "sentiment", Json.JStr (lit "Negative"))]);
    [| vm_compute; reflexivity | | reflexivity | reflexivity].
  - apply (proj2 (loads_mono Json.tight L _ (tight_admits L HL))).
    vm_compute. reflexivity.
  - apply (proj1 (loads_mono Json.tight L _ (tight_admits L HL))).
    vm_compute. reflexivity.
Qed.

Lemma C8_parser_embedded_object_witness :
  parse Json.cpython Sample.wrapped_reply
  = Val (strip (lit "Customer had a billing issue."), strip (lit "Negative")).
Proof.
  apply (proj1 C8_parser_embedded_object Json.cpython Sample.wrapped_reply
           JSONDecodeError
           (dq "{'summary': 'Customer had a billing issue.', 'sentiment': 'Negative'}")
           [(lit "summary", Json.JStr (lit "Customer had a billing issue."));
            (lit "sentiment", Json.JStr (lit "Negative"))]);
    vm_compute; reflexivity.
Defined.

(** Without any nesting left, [json.loads] raises on every text that starts
    with an opening brace. *)
Lemma loads_at_depth_zero (L : Json.limits) (text r : str) :
  Json.max_depth L = 0 -> Json.skip_ws text = 123%N :: r ->
  exists e, Json.loads L text = Raise e.
Proof.
  intros HL Ht. unfold Json.loads.
  destruct (is_prefix [65279%N] text); [now exists JSONDecodeError|].
  exists RecursionError. unfold Json.decode.
  rewrite Ht, HL. rewrite Nat.add_1_r. reflexivity.
Qed.

(** C10: there is a raw string that is not valid JSON and holds two disjoint
    JSON objects separated by other text, on which the brace search matches
    from the first opening brace to the last closing brace, the matched text
    fails to parse, and the parser returns the raw string trimmed and
    "Unknown" instead of the fields of the first object.  The search, the two
    failures and the result are the same under all limits of the
    interpreter; that the two parts are JSON objects needs one level of
    nesting, without which no text is one. *)
Theorem C10_greedy_extraction :
  exists raw before o1 between o2 after_ members1 members2,
    raw = before ++ o1 ++ between ++ o2 ++ after_
    /\ between <> []
    /\ fields (Json.JObj members1) = Val (lit "A", lit "Positive")
    /\ search_braces raw = Some (o1 ++ between ++ o2)
    /\ (forall L,
          Json.loads L raw = Raise JSONDecodeError
          /\ (exists e, Json.loads L (o1 ++ between ++ o2) = Raise e)
          /\ parse L raw = Val (strip raw, lit "Unknown")
          /\ parse L raw <> Val (lit "A", lit "Positive"))
    /\ (forall L, 1 <= Json.max_depth L ->
          Json.loads L o1 = Val (Json.JObj members1)
          /\ Json.loads L o2 = Val (Json.JObj members2)
          /\ Json.loads L (o1 ++ between ++ o2) = Raise JSONDecodeError).
Proof.
  exists Sample.two_objects, (lit "First: "), Sample.first_object,
    (lit " second: "), Sample.second_object, (lit " end.").
  exists [(lit "summary", Json.JStr (lit "A"));
          (lit "sentiment", Json.JStr (lit "Positive"))],
    [(lit "summary", Json.JStr (lit "B"));
     (lit "sentiment", Json.JStr (lit "Negative"))].
  set (block := Sample.first_object ++ lit " second: " ++ Sample.second_object).
  assert (Hblock : forall L, 1 <= Json.max_depth L ->
                     Json.loads L block = Raise JSONDecodeError).
  { intros L HL.
    apply (proj2 (loads_mono Json.tight L block (tight_admits L HL))).
    vm_compute. reflexivity. }
  split; [reflexivity|]. split; [discriminate|].
  split; [vm_compute; reflexivity|]. split; [vm_compute; reflexivity|].
  split.
  - intros L.
    assert (H3 : Json.loads L Sample.two_objects = Raise JSONDecodeError).
    { apply (proj2 (loads_mono Json.narrowest L _ (narrowest_admits L))).
      vm_compute. reflexivity. }
    assert (H4 : exists e, Json.loads L block = Raise e).
    { destruct (Json.max_depth L) as [|d] eqn:Hd.
      - apply (loads_at_depth_zero L block (List.tl block) Hd). reflexivity.
      - exists JSONDecodeError. apply Hblock. lia. }
    assert (Hp : parse L Sample.two_objects
                 = Val (strip Sample.two_objects, lit "Unknown")).
    { apply (parse_fall_through L _ JSONDecodeError H3). right.
      destruct H4 as [e H4]. exists block, e.
      split; [vm_compute; reflexivity | exact H4]. }
    split; [exact H3|]. split; [exact H4|]. split; [exact Hp|].
    rewrite Hp. vm_compute. discriminate.
  - intros L HL.
    split; [apply (proj1 (loads_mono Json.tight L _ (tight_admits L HL)));
            vm_compute; reflexivity|].
    split; [apply (proj1 (loads_mono Json.tight L _ (tight_admits L HL)));
            vm_compute; reflexivity|].
    now apply Hblock.
Qed.

Lemma C10_greedy_extraction_witness :
  exists o1 members1,
    Json.loads Json.cpython o1 = Val (Json.JObj members1)
    /\ fields (Json.JObj members1) = Val (lit "A", lit "Positive").
Proof.
  destruct C10_greedy_extraction
    as [raw [before [o1 [between [o2 [after_ [m1 [m2 [_ [_ [Hf [_ [_ H]]]]]]]]]]]]].
  exists o1, m1. split; [|exact Hf].
  apply (H Json.cpython). vm_compute. lia.
Defined.

(** ** The dispatcher *)

(** Without the library or without a key nothing happens outside: the result
    is the heuristic one and the log is untouched. *)
Lemma analyze_offline (E : env) (transcript : str) (log : list event) :
  use_offline E = true ->
  analyze E transcript log = (Val (heuristic_result transcript), log).
Proof.
  unfold analyze. intros ->. reflexivity.
Qed.

(** Every run of the dispatcher ends in one of two ways: with the heuristic
    result, or with what the parser made of the model's reply. *)
Lemma analyze_cases (E : env) (transcript : str) (log : list event) :
  (exists evs,
      analyze E transcript log = (Val (heuristic_result transcript), log ++ evs))
  \/ (exists cl raw p evs,
        completion E cl transcript = Val (Some raw)
        /\ parse (interpreter E) raw = Val p
        /\ analyze E transcript log
           = (Val (Analysis (fst p) (snd p) GROQ), log ++ evs)).
Proof.
  destruct (use_offline E) eqn:Hoff.
  - left. exists []. rewrite app_nil_r. now apply analyze_offline.
  - unfold analyze, make_groq_client. rewrite Hoff.
    unfold use_offline in Hoff. rewrite Hoff.
    unfold bind, try_except, emit, lift, ret, heuristic, call_groq_for_json.
    set (key := match GROQ_API_KEY E with Some k => k | None => [] end).
    destruct (Groq E key) as [cl|e].
    + unfold bind, emit, lift, ret.
      destruct (completion E cl transcript) as [generated|e] eqn:Hc.
      * destruct (parse_generated (interpreter E) generated) as [p|e] eqn:Hp.
        -- right. apply parse_generated_val in Hp.
           destruct Hp as [raw [-> Hp]].
           exists cl, raw, p. eexists.
           split; [exact Hc|]. split; [exact Hp|].
           rewrite <- app_assoc. reflexivity.
        -- left. eexists. rewrite <- !app_assoc. reflexivity.
      * left. eexists. rewrite <- !app_assoc. reflexivity.
    + left. eexists. rewrite <- !app_assoc. reflexivity.
Qed.

Lemma classify_values (s : str) :
  In (classify s) [lit "Negative"; lit "Positive"; lit "Neutral"].
Proof.
  unfold classify. cbv zeta.
  destruct (_ <? _); [now left|].
  destruct (_ <? _); [right; now left | right; right; now left].
Qed.

Lemma summarize_nonempty (s : str) :
  s <> [] -> leading_boundary s = false ->
  (forall c r, s = c :: r -> isspace c = false) ->
  summarize s <> [].
Proof.
  intros Hne Hlead Hhead. rewrite summarize_before_boundary.
  destruct s as [|c r]; [contradiction|].
  simpl in Hlead. simpl. rewrite Hlead.
  apply strip_nonempty. now apply (Hhead c r).
Qed.

Lemma heuristic_result_pair (transcript : str) :
  (summary (heuristic_result transcript), sentiment (heuristic_result transcript))
  = local_fallback transcript.
Proof.
  unfold heuristic_result. cbv zeta. cbn [summary sentiment].
  symmetry. apply surjective_pairing.
Qed.

(** C1: the dispatcher is total and falls back: for every transcript, in
    every configuration and whatever the Groq library does, [analyze] returns
    a result and does not raise; and when the capability flag is false or the
    credential is missing or empty, the result is the heuristic one with source
    LOCAL_FALLBACK and the log is left as it was: no client was constructed,
    no request sent. *)
Theorem C1_dispatcher_total (E : env) (transcript : str) (log : list event) :
  (exists r log', analyze E transcript log = (Val r, log'))
  /\ (GROQ_AVAILABLE E = false \/ truthy (GROQ_API_KEY E) = false ->
      analyze E transcript log = (Val (heuristic_result transcript), log)
      /\ used (heuristic_result transcript) = LOCAL_FALLBACK
      /\ (summary (heuristic_result transcript),
          sentiment (heuristic_result transcript)) = local_fallback transcript).
Proof.
  split.
  - destruct (analyze_cases E transcript log)
      as [[evs H]|[cl [raw [p [evs [_ [_ H]]]]]]]; rewrite H; eauto.
  - intros Hoff. split; [|split].
    + apply analyze_offline. unfold use_offline.
      destruct Hoff as [-> | ->]; [reflexivity | apply orb_true_r].
    + reflexivity.
    + apply heuristic_result_pair.
Qed.

Lemma C1_dispatcher_total_witness :
  analyze Sample.offline (lit "Thank you, great service, I am happy") []
  = (Val (heuristic_result (lit "Thank you, great service, I am happy")), []).
Proof.
  apply (proj2 (C1_dispatcher_total Sample.offline
                  (lit "Thank you, great service, I am happy") [])).
  left. reflexivity.
Defined.

(** C9: the heuristic analyzer is deterministic: for every transcript it
    returns the same pair whatever has happened before, it does not raise and
    it adds nothing to the log (no external call); and two runs of the
    dispatcher on the same transcript that both end on the heuristic path,
    in whatever configurations, return the same result. *)
Theorem C9_heuristic_deterministic (transcript : str) :
  (forall log1 log2,
      exists a,
        heuristic transcript log1 = (Val a, log1)
        /\ heuristic transcript log2 = (Val a, log2)
        /\ (summary a, sentiment a) = local_fallback transcript)
  /\ (forall E1 E2 log1 log2 r1 r2 l1 l2,
         analyze E1 transcript log1 = (Val r1, l1) ->
         analyze E2 transcript log2 = (Val r2, l2) ->
         used r1 = LOCAL_FALLBACK -> used r2 = LOCAL_FALLBACK -> r1 = r2).
Proof.
  split.
  - intros log1 log2. exists (heuristic_result transcript).
    split; [reflexivity|]. split; [reflexivity|].
    apply heuristic_result_pair.
  - intros E1 E2 log1 log2 r1 r2 l1 l2 H1 H2 U1 U2.
    destruct (analyze_cases E1 transcript log1)
      as [[evs1 K1]|[cl1 [raw1 [p1 [evs1 [_ [_ K1]]]]]]];
      rewrite K1 in H1; injection H1 as <- _; [|discriminate].
    destruct (analyze_cases E2 transcript log2)
      as [[evs2 K2]|[cl2 [raw2 [p2 [evs2 [_ [_ K2]]]]]]];
      rewrite K2 in H2; injection H2 as <- _; [|discriminate].
    reflexivity.
Qed.

Lemma C9_heuristic_deterministic_witness :
  exists r1 r2 l1 l2,
    analyze Sample.offline (lit "My order arrived late") [] = (Val r1, l1)
    /\ analyze Sample.unreachable (lit "My order arrived late") [] = (Val r2, l2)
    /\ used r1 = LOCAL_FALLBACK /\ used r2 = LOCAL_FALLBACK
    /\ r1 = r2.
Proof.
  do 4 eexists.
  split; [vm_compute; reflexivity|]. split; [vm_compute; reflexivity|].
  split; [reflexivity|]. split; [reflexivity|].
  apply (proj2 (C9_heuristic_deterministic (lit "My order arrived late"))
           Sample.offline Sample.unreachable [] [] _ _
           []
           [GroqConstructed (lit "key");
            CompletionRequested (lit "My order arrived late");
            Warned (ErrorCallingGroq (RemoteError (lit "timeout")))]);
    vm_compute; reflexivity.
Defined.

(** C5 as stated fails: the trimmed transcript '. hello' begins with a
    sentence boundary, the first piece of the split is empty, and the code
    returns the empty summary where the first non-empty sentence is 'hello'. *)
Lemma C5_counterexample :
  fst (local_fallback (lit ". hello")) = []
  /\ Spec.summary_spec (lit ". hello") = lit "hello"
  /\ fst (local_fallback (lit ". hello")) <> Spec.summary_spec (lit ". hello").
Proof.
  split; [vm_compute; reflexivity|]. split; [vm_compute; reflexivity|].
  vm_compute. discriminate.
Qed.

(** C5, amended: for every transcript whose trimmed text holds a sentence
    boundary (one of '.', '?', '!' followed by whitespace), the heuristic
    summary is the text before the first such boundary, which may be empty,
    trimmed of surrounding whitespace. *)
Theorem C5_heuristic_summary
  (transcript pre : str) (p w : char) (rest : str) :
  strip transcript = pre ++ p :: w :: rest ->
  has_boundary pre = false -> is_end p = true -> isspace w = true ->
  fst (local_fallback transcript) = strip pre.
Proof.
  intros Heq Hpre Hp Hw. unfold local_fallback. simpl.
  rewrite summarize_before_boundary, Heq.
  now rewrite (before_boundary_prefix pre p w rest Hpre Hp Hw).
Qed.

Lemma C5_heuristic_summary_witness :
  fst (local_fallback (lit "  My order arrived late. Please help. "))
  = strip (lit "My order arrived late").
Proof.
  apply (C5_heuristic_summary (lit "  My order arrived late. Please help. ")
           (lit "My order arrived late") 46%N 32%N (lit "Please help."));
    vm_compute; reflexivity.
Defined.

(** ** The examples of the specification, and the arm that is never taken *)

Example sentiment_positive :
  local_fallback (lit "Thank you, great service, I am happy")
  = (lit "Thank you, great service, I am happy", lit "Positive").
Proof. vm_compute. reflexivity. Qed.

Example sentiment_tie :
  snd (local_fallback (lit "Hello, I would like to know the next steps"))
  = lit "Neutral".
Proof. vm_compute. reflexivity. Qed.

(** Without a sentence boundary the summary is the whole trimmed transcript:
    the twelve-token excerpt with its ellipsis is never produced. *)
Lemma summary_without_boundary (transcript : str) :
  has_boundary (strip transcript) = false ->
  fst (local_fallback transcript) = strip (strip transcript).
Proof.
  intros H. unfold local_fallback. simpl.
  now rewrite summarize_before_boundary, (before_boundary_none _ H).
Qed.

Example summary_hello_world :
  fst (local_fallback (lit "hello world")) = lit "hello world"
  /\ Spec.summary_spec (lit "hello world") = lit "hello world...".
Proof. split; vm_compute; reflexivity. Qed.

(** A reply that is [None] ends on the heuristic path, with a warning. *)
Example reply_none :
  analyze (Sample.online None) (lit "hello world") []
  = (Val (heuristic_result (lit "hello world")),
     [GroqConstructed (lit "key"); CompletionRequested (lit "hello world");
      Warned (ErrorCallingGroq TypeError)]).
Proof. vm_compute. reflexivity. Qed.

(** * Further properties of [app.py] *)

(** ** More on trimming *)

Lemma dropwhile_all (p : char -> bool) (a x : str) :
  forallb p a = true -> dropwhile p (a ++ x) = dropwhile p x.
Proof.
  induction a as [|c a IH]; [reflexivity|]. simpl.
  intros H. apply andb_true_iff in H. destruct H as [-> Ha]. now apply IH.
Qed.

Lemma dropwhile_nil (p : char -> bool) (s : str) :
  dropwhile p s = [] -> forallb p s = true.
Proof.
  induction s as [|c r IH]; [reflexivity|]. simpl.
  destruct (p c); [exact IH | discriminate].
Qed.

Lemma dropwhile_app_cons (p : char -> bool) (s x : str) :
  dropwhile p s <> [] -> dropwhile p (s ++ x) = dropwhile p s ++ x.
Proof.
  induction s as [|c r IH]; [contradiction|]. simpl.
  destruct (p c); [exact IH | reflexivity].
Qed.

Lemma rstrip_all (x b : str) :
  forallb isspace b = true -> rstrip (x ++ b) = rstrip x.
Proof.
  intros Hb. unfold rstrip. rewrite rev_app_distr.
  rewrite dropwhile_all by now rewrite forallb_rev. reflexivity.
Qed.

Lemma strip_all_space (a : str) : forallb isspace a = true -> strip a = [].
Proof.
  intros Ha. unfold strip, lstrip.
  rewrite <- (app_nil_r a), (dropwhile_all isspace a [] Ha). reflexivity.
Qed.

(** Whitespace around a text does not change what [strip] returns. *)
Lemma strip_padding (a t b : str) :
  forallb isspace a = true -> forallb isspace b = true ->
  strip (a ++ t ++ b) = strip t.
Proof.
  intros Ha Hb. unfold strip, lstrip.
  rewrite (dropwhile_all isspace a (t ++ b) Ha).
  destruct (dropwhile isspace t) as [|c r] eqn:Ht.
  - apply dropwhile_nil in Ht.
    rewrite (dropwhile_all isspace t b Ht).
    rewrite <- (app_nil_r b), (dropwhile_all isspace b [] Hb). reflexivity.
  - rewrite dropwhile_app_cons by (rewrite Ht; discriminate).
    rewrite Ht. now apply rstrip_all.
Qed.

Lemma strip_idempotent (s : str) : strip (strip s) = strip s.
Proof.
  destruct (strip_split s) as [a [b [Heq [Ha Hb]]]].
  rewrite Heq at 2. symmetry. now apply strip_padding.
Qed.

Lemma lstrip_head (c : char) (r : str) :
  isspace c = false -> lstrip (c :: r) = c :: r.
Proof. intros H. unfold lstrip. simpl. now rewrite H. Qed.

(** ** More on sentence boundaries *)

Lemma before_boundary_split (s : str) :
  exists rest, s = before_boundary s ++ rest.
Proof.
  induction s as [|c r [rest IH]]; simpl.
  - now exists [].
  - destruct (is_end c && starts_with_space r).
    + now exists (c :: r).
    + exists rest. simpl. now f_equal.
Qed.

Lemma starts_with_space_before (r : str) :
  starts_with_space (before_boundary r) = true -> starts_with_space r = true.
Proof.
  destruct r as [|d r']; simpl; [discriminate|].
  destruct (is_end d && starts_with_space r'); simpl; [discriminate | trivial].
Qed.

Lemma before_boundary_free (s : str) : has_boundary (before_boundary s) = false.
Proof.
  induction s as [|c r IH]; [reflexivity|]. simpl.
  destruct (is_end c && starts_with_space r) eqn:Hb; [reflexivity|].
  simpl. rewrite IH, orb_false_r.
  destruct (is_end c); [|reflexivity]. simpl in *.
  destruct (starts_with_space (before_boundary r)) eqn:Hs; [|reflexivity].
  apply starts_with_space_before in Hs. congruence.
Qed.

Lemma has_boundary_app (x y : str) :
  has_boundary (x ++ y) = false ->
  has_boundary x = false /\ has_boundary y = false.
Proof.
  induction x as [|c x IH]; simpl; [now split|].
  intros H. apply orb_false_iff in H. destruct H as [Hc Hxy].
  destruct (IH Hxy) as [Hx Hy]. split; [|exact Hy].
  rewrite Hx, orb_false_r.
  destruct x as [|d x']; [apply andb_false_r | exact Hc].
Qed.

Lemma strip_boundary_free (s : str) :
  has_boundary s = false -> has_boundary (strip s) = false.
Proof.
  intros H. destruct (strip_split s) as [a [b [Heq _]]].
  rewrite Heq in H. apply has_boundary_app in H. destruct H as [_ H].
  apply has_boundary_app in H. tauto.
Qed.

(** ** The heuristic summary *)

(** X1: whitespace before and after the transcript does not change the
    heuristic summary nor the heuristic sentiment. *)
Theorem X1_local_fallback_padding (a transcript b : str) :
  forallb isspace a = true -> forallb isspace b = true ->
  local_fallback (a ++ transcript ++ b) = local_fallback transcript.
Proof.
  intros Ha Hb. unfold local_fallback.
  now rewrite (strip_padding a transcript b Ha Hb).
Qed.

Lemma X1_local_fallback_padding_witness :
  local_fallback (lit "  " ++ lit "All good. Bye" ++ lit " ")
  = local_fallback (lit "All good. Bye").
Proof.
  apply (X1_local_fallback_padding (lit "  ") (lit "All good. Bye") (lit " "));
    reflexivity.
Defined.

(** X2: the heuristic summary is an initial part of the trimmed transcript:
    the summariser copies, it never adds or changes a character, and the
    summary is never longer than the transcript. *)
Theorem X2_summary_prefix (transcript : str) :
  (exists rest, strip transcript = fst (local_fallback transcript) ++ rest)
  /\ length (fst (local_fallback transcript)) <= length transcript.
Proof.
  assert (H : exists rest, strip transcript = fst (local_fallback transcript) ++ rest).
  { unfold local_fallback. cbn [fst]. rewrite summarize_before_boundary.
    destruct (before_boundary_split (strip transcript)) as [rest Hrest].
    destruct (before_boundary (strip transcript)) as [|c x] eqn:Hbb.
    - exists (strip transcript). reflexivity.
    - assert (Hc : isspace c = false).
      { destruct (strip transcript) as [|c' r'] eqn:Hs; [discriminate|].
        simpl in Hrest. injection Hrest as -> _.
        exact (strip_head transcript c r' Hs). }
      change (strip (c :: x)) with (rstrip (lstrip (c :: x))).
      rewrite (lstrip_head c x Hc).
      destruct (rstrip_split (c :: x)) as [ws [Hws _]].
      exists (ws ++ rest). rewrite Hrest. rewrite Hws at 1.
      now rewrite <- app_assoc. }
  split; [exact H|].
  destruct H as [rest Hrest].
  destruct (strip_split transcript) as [a [b [Heq _]]].
  apply (f_equal (@length char)) in Heq. apply (f_equal (@length char)) in Hrest.
  rewrite !length_app in Heq. rewrite length_app in Hrest. lia.
Qed.

(** X3: the heuristic summary is free of whitespace at both ends and holds no
    sentence boundary: it is at most one sentence. *)
Theorem X3_summary_one_sentence (transcript : str) :
  Text.trimmed (fst (local_fallback transcript))
  /\ has_boundary (fst (local_fallback transcript)) = false.
Proof.
  unfold local_fallback, Text.trimmed. cbn [fst].
  rewrite summarize_before_boundary. split.
  - apply strip_idempotent.
  - apply strip_boundary_free, before_boundary_free.
Qed.

(** X4: when the trimmed transcript holds no sentence boundary, the heuristic
    summary is the whole trimmed transcript, however many words it has: no
    excerpt is cut and no ellipsis is added. *)
Theorem X4_summary_whole (transcript : str) :
  has_boundary (strip transcript) = false ->
  fst (local_fallback transcript) = strip transcript.
Proof.
  intros H. unfold local_fallback. cbn [fst].
  rewrite summarize_before_boundary, (before_boundary_none _ H).
  apply strip_idempotent.
Qed.

Lemma X4_summary_whole_witness :
  fst (local_fallback
         (lit " one two three four five six seven eight nine ten eleven twelve thirteen "))
  = strip (lit " one two three four five six seven eight nine ten eleven twelve thirteen ").
Proof.
  apply (X4_summary_whole
           (lit " one two three four five six seven eight nine ten eleven twelve thirteen ")).
  vm_compute. reflexivity.
Defined.

(** ** The heuristic sentiment *)

Ltac not_space :=
  unfold isspace; rewrite !between_false by lia;
  repeat rewrite (proj2 (N.eqb_neq _ _)) by lia; reflexivity.

Lemma isspace_upper (c : char) : isspace (Text.ascii_upper c) = isspace c.
Proof.
  unfold Text.ascii_upper. destruct (between 97 122 c) eqn:Hc; [|reflexivity].
  apply between_true in Hc.
  transitivity false; [|symmetry]; not_space.
Qed.

Lemma lower_char_upper (c : char) :
  lower_char (Text.ascii_upper c) = lower_char c.
Proof.
  unfold Text.ascii_upper. destruct (between 97 122 c) eqn:Hc; [|reflexivity].
  apply between_true in Hc. unfold lower_char.
  assert (H1 : between 65 90 (c - 32) = true).
  { unfold between. apply andb_true_iff. split; apply N.leb_le; lia. }
  rewrite H1. simpl.
  rewrite (between_false 65 90 c), (between_false 192 214 c),
    (between_false 216 222 c) by lia.
  simpl. rewrite !(proj2 (N.eqb_neq _ _)) by lia.
  f_equal. lia.
Qed.

Lemma dropwhile_map (p : char -> bool) (f : char -> char) (s : str) :
  (forall c, p (f c) = p c) ->
  dropwhile p (map f s) = map f (dropwhile p s).
Proof.
  intros H. induction s as [|c r IH]; [reflexivity|]. simpl.
  rewrite H. destruct (p c); [exact IH | reflexivity].
Qed.

Lemma strip_map (f : char -> char) (s : str) :
  (forall c, isspace (f c) = isspace c) -> strip (map f s) = map f (strip s).
Proof.
  intros H. unfold strip, lstrip, rstrip.
  rewrite (dropwhile_map isspace f s H), <- map_rev.
  rewrite (dropwhile_map isspace f _ H), map_rev. reflexivity.
Qed.

Lemma lower_upper (s : str) : lower (map Text.ascii_upper s) = lower s.
Proof.
  induction s as [|c r IH]; [reflexivity|]. simpl.
  now rewrite lower_char_upper, IH.
Qed.

(** X5: the heuristic sentiment does not depend on the case of ASCII letters:
    writing the transcript in capitals leaves it unchanged. *)
Theorem X5_sentiment_case_insensitive (transcript : str) :
  snd (local_fallback (map Text.ascii_upper transcript))
  = snd (local_fallback transcript).
Proof.
  unfold local_fallback. cbn [snd].
  rewrite (strip_map Text.ascii_upper transcript isspace_upper).
  unfold classify. now rewrite lower_upper.
Qed.

(** The sentiment in terms of the two totals of occurrences in the lower-cased
    transcript. *)
Lemma classify_occurrences (transcript : str) :
  snd (local_fallback transcript)
  = let t := lower transcript in
    let neg := list_sum (map (fun w => occurrences w t) NEGATIVE_WORDS) in
    let pos := list_sum (map (fun w => occurrences w t) POSITIVE_WORDS) in
    if pos <? neg then lit "Negative"
    else if neg <? pos then lit "Positive"
    else lit "Neutral".
Proof.
  unfold local_fallback, classify. cbv beta zeta. cbn [snd].
  destruct keywords_plain as [Hneg Hpos].
  now rewrite (keyword_counts NEGATIVE_WORDS transcript Hneg),
    (keyword_counts POSITIVE_WORDS transcript Hpos).
Qed.

Lemma is_prefix_app (w post : str) : is_prefix w (w ++ post) = true.
Proof.
  induction w as [|a w IH]; [reflexivity|]. simpl.
  now rewrite N.eqb_refl, IH.
Qed.

Lemma is_prefix_trans (u w s : str) :
  is_prefix u w = true -> is_prefix w s = true -> is_prefix u s = true.
Proof.
  revert w s. induction u as [|a u IH]; intros [|b w] [|c s]; simpl;
    try reflexivity; try discriminate.
  intros H1 H2. apply andb_true_iff in H1. apply andb_true_iff in H2.
  destruct H1 as [Hab Hu]. destruct H2 as [Hbc Hw].
  apply N.eqb_eq in Hab. apply N.eqb_eq in Hbc. subst.
  rewrite N.eqb_refl. simpl. now apply (IH w s).
Qed.

(** Where a word occurs, so does each of its prefixes. *)
Lemma occurrences_prefix (u w t : str) :
  is_prefix u w = true -> occurrences w t <= occurrences u t.
Proof.
  intros H. induction t as [|c r IH]; [reflexivity|].
  change (occurrences w (c :: r))
    with ((if is_prefix w (c :: r) then 1 else 0) + occurrences w r).
  change (occurrences u (c :: r))
    with ((if is_prefix u (c :: r) then 1 else 0) + occurrences u r).
  destruct (is_prefix w (c :: r)) eqn:Hw.
  - rewrite (is_prefix_trans u w (c :: r) H Hw). lia.
  - destruct (is_prefix u (c :: r)); lia.
Qed.

Lemma occurrences_substring (w t : str) :
  w <> [] -> (0 < occurrences w t <-> Text.substring w t).
Proof.
  intros Hw. split.
  - induction t as [|c r IH]; [simpl; lia|].
    change (occurrences w (c :: r))
      with ((if is_prefix w (c :: r) then 1 else 0) + occurrences w r).
    destruct (is_prefix w (c :: r)) eqn:Hp.
    + intros _. exists [], (skipn (length w) (c :: r)).
      now apply is_prefix_split.
    + intros H. destruct IH as [pre [post ->]]; [lia|].
      now exists (c :: pre), post.
  - intros [pre [post ->]]. induction pre as [|c pre IH].
    + destruct w as [|a w']; [contradiction|]. simpl app.
      change (occurrences (a :: w') (a :: w' ++ post))
        with ((if is_prefix (a :: w') (a :: w' ++ post) then 1 else 0)
              + occurrences (a :: w') (w' ++ post)).
      rewrite (is_prefix_app (a :: w') post
               : is_prefix (a :: w') (a :: w' ++ post) = true). lia.
    + change (occurrences w ((c :: pre) ++ w ++ post))
        with ((if is_prefix w (c :: pre ++ w ++ post) then 1 else 0)
              + occurrences w (pre ++ w ++ post)).
      lia.
Qed.

Lemma plain_word_nonempty (w : str) : plain_word w = true -> w <> [].
Proof. intros H ->. discriminate. Qed.

Lemma total_zero (words : list str) (t : str) :
  forallb plain_word words = true ->
  (forall w, In w words -> ~ Text.substring w t) ->
  list_sum (map (fun w => occurrences w t) words) = 0.
Proof.
  induction words as [|w ws IH]; [reflexivity|].
  intros Hp Hnone. simpl in Hp. apply andb_true_iff in Hp. destruct Hp as [Hw Hws].
  simpl. rewrite IH; [|exact Hws | intros v Hv; apply Hnone; now right].
  destruct (occurrences w t) eqn:Ho; [reflexivity|].
  exfalso. apply (Hnone w); [now left|].
  apply occurrences_substring; [now apply plain_word_nonempty | lia].
Qed.

Lemma total_positive (words : list str) (t w : str) :
  forallb plain_word words = true ->
  In w words -> Text.substring w t ->
  0 < list_sum (map (fun w => occurrences w t) words).
Proof.
  intros Hp Hin Hsub. rewrite forallb_forall in Hp.
  apply occurrences_substring in Hsub;
    [|apply plain_word_nonempty; now apply Hp].
  induction words as [|v vs IH]; [contradiction|].
  simpl. destruct Hin as [->|Hin]; [lia|].
  assert (0 < list_sum (map (fun w => occurrences w t) vs)); [|lia].
  apply IH; [|exact Hin]. intros x Hx. apply Hp. now right.
Qed.

(** X6: when keywords of one polarity only occur in the lower-cased
    transcript, the heuristic sentiment is that polarity; when no keyword
    occurs at all, it is Neutral. *)
Theorem X6_sentiment_one_polarity (transcript : str) :
  let t := lower transcript in
  let absent words := forall w, In w words -> ~ Text.substring w t in
  let present words := exists w, In w words /\ Text.substring w t in
  (absent POSITIVE_WORDS -> present NEGATIVE_WORDS ->
   snd (local_fallback transcript) = lit "Negative")
  /\ (absent NEGATIVE_WORDS -> present POSITIVE_WORDS ->
      snd (local_fallback transcript) = lit "Positive")
  /\ (absent NEGATIVE_WORDS -> absent POSITIVE_WORDS ->
      snd (local_fallback transcript) = lit "Neutral").
Proof.
  cbv zeta. destruct keywords_plain as [Hneg Hpos].
  rewrite classify_occurrences. cbv zeta.
  split; [|split].
  - intros Hp [w [Hin Hsub]].
    rewrite (total_zero POSITIVE_WORDS _ Hpos Hp).
    pose proof (total_positive NEGATIVE_WORDS _ w Hneg Hin Hsub) as H.
    apply Nat.ltb_lt in H. now rewrite H.
  - intros Hn [w [Hin Hsub]].
    rewrite (total_zero NEGATIVE_WORDS _ Hneg Hn).
    pose proof (total_positive POSITIVE_WORDS _ w Hpos Hin Hsub) as H.
    apply Nat.ltb_lt in H. rewrite H. reflexivity.
  - intros Hn Hp.
    rewrite (total_zero NEGATIVE_WORDS _ Hneg Hn),
      (total_zero POSITIVE_WORDS _ Hpos Hp). reflexivity.
Qed.

(** X7: every "thanks" counts twice, once as "thank" and once as "thanks":
    when the negative terms occur fewer than twice as often as "thanks" does,
    the heuristic sentiment is Positive. *)
Theorem X7_thanks_counts_twice (transcript : str) :
  let t := lower transcript in
  list_sum (map (fun w => occurrences w t) NEGATIVE_WORDS)
  < 2 * occurrences (lit "thanks") t ->
  snd (local_fallback transcript) = lit "Positive".
Proof.
  cbv zeta. intros H. rewrite classify_occurrences. cbv zeta.
  set (t := lower transcript) in *.
  set (neg := list_sum (map (fun w => occurrences w t) NEGATIVE_WORDS)) in *.
  assert (Hpos : 2 * occurrences (lit "thanks") t
                 <= list_sum (map (fun w => occurrences w t) POSITIVE_WORDS)).
  { unfold POSITIVE_WORDS, list_sum. cbn [map fold_right].
    pose proof (occurrences_prefix (lit "thank") (lit "thanks") t eq_refl). lia. }
  destruct (Nat.ltb_spec (list_sum (map (fun w => occurrences w t) POSITIVE_WORDS)) neg);
    [lia|].
  destruct (Nat.ltb_spec neg (list_sum (map (fun w => occurrences w t) POSITIVE_WORDS)));
    [reflexivity | lia].
Qed.

Lemma X7_thanks_counts_twice_witness :
  snd (local_fallback (lit "I was charged twice, thanks")) = lit "Positive".
Proof.
  apply (X7_thanks_counts_twice (lit "I was charged twice, thanks")).
  vm_compute. lia.
Defined.

Lemma X6_sentiment_one_polarity_witness :
  snd (local_fallback (lit "I want a REFUND")) = lit "Negative".
Proof.
  apply (proj1 (X6_sentiment_one_polarity (lit "I want a REFUND"))).
  - intros w Hin Hsub. vm_compute in Hin.
    repeat (destruct Hin as [<-|Hin];
            [apply occurrences_substring in Hsub; [vm_compute in Hsub; lia|discriminate]|]).
    exact Hin.
  - exists (lit "refund"). split; [vm_compute; tauto|].
    exists (lit "i want a "), []. vm_compute. reflexivity.
Defined.

(** ** The brace search, both ways *)

Lemma upto_last_close_none_inv (s : str) :
  upto_last_close s = None -> ~ In 125%N s.
Proof.
  induction s as [|c r IH]; [intros _ []|]. simpl.
  destruct (upto_last_close r); [discriminate|].
  destruct (N.eqb_spec c 125) as [->|Hc]; [discriminate|].
  intros _ [H|H]; [congruence | now apply IH].
Qed.

Lemma upto_last_close_some (s t : str) :
  upto_last_close s = Some t ->
  exists mid post, s = mid ++ 125%N :: post /\ t = mid ++ [125%N]
                   /\ ~ In 125%N post.
Proof.
  revert t. induction s as [|c r IH]; [discriminate|]. simpl. intros t.
  destruct (upto_last_close r) as [t'|] eqn:Hr.
  - intros H. injection H as <-.
    destruct (IH t' eq_refl) as [mid [post [-> [-> Hpost]]]].
    now exists (c :: mid), post.
  - destruct (N.eqb_spec c 125) as [->|_]; [|discriminate].
    intros H. injection H as <-.
    exists [], r. repeat split. now apply upto_last_close_none_inv.
Qed.

Lemma search_braces_some (s b : str) :
  search_braces s = Some b ->
  exists pre mid post,
    s = pre ++ b ++ post /\ b = 123%N :: mid ++ [125%N]
    /\ ~ In 123%N pre /\ ~ In 125%N post.
Proof.
  induction s as [|c r IH]; [discriminate|]. simpl.
  destruct (N.eqb_spec c 123) as [->|Hc].
  - destruct (upto_last_close r) as [t|] eqn:Hr.
    + intros H. injection H as <-.
      destruct (upto_last_close_some r t Hr) as [mid [post [-> [-> Hpost]]]].
      exists [], mid, post. simpl. rewrite <- app_assoc. simpl.
      repeat split; try assumption. intros [].
    + intros H. exfalso.
      destruct (IH H) as [pre [mid [post [-> [-> _]]]]].
      apply (upto_last_close_none_inv _ Hr).
      apply in_or_app. right. apply in_or_app. left.
      right. apply in_or_app. right. now left.
  - intros H. destruct (IH H) as [pre [mid [post [-> [-> [Hpre Hpost]]]]]].
    exists (c :: pre), mid, post. repeat split; try assumption.
    intros [Heq|Hin]; [congruence | contradiction].
Qed.

Lemma search_braces_no_open (s : str) :
  ~ In 123%N s -> search_braces s = None.
Proof.
  induction s as [|c r IH]; [reflexivity|]. intros H. simpl.
  destruct (N.eqb_spec c 123) as [->|_].
  - exfalso. apply H. now left.
  - apply IH. intros Hin. apply H. now right.
Qed.

(** X8: the brace search finds a block exactly when the reply can be cut into
    a part without an opening brace, a block that starts with an opening and
    ends with a closing brace, and a part without a closing brace: the block
    runs from the first opening brace to the last closing brace, whatever
    lies between them (other braces and line breaks included). *)
Theorem X8_search_braces_span (s b : str) :
  search_braces s = Some b
  <-> exists pre mid post,
        s = pre ++ b ++ post /\ b = 123%N :: mid ++ [125%N]
        /\ ~ In 123%N pre /\ ~ In 125%N post.
Proof.
  split; [apply search_braces_some|].
  intros [pre [mid [post [-> [-> [Hpre Hpost]]]]]].
  etransitivity; [|exact (search_braces_greedy pre mid post Hpre Hpost)].
  f_equal. simpl. now rewrite <- app_assoc.
Qed.

(** ** More on the reply parser *)

Lemma elements_array (L : Json.limits) (f : nat) :
  forall d s acc v r,
    Json.elements L f d s acc = Json.Found v r -> exists items, v = Json.JArr items.
Proof.
  induction f as [|f IH]; intros d s acc v r H; [discriminate|].
  cbn [Json.elements] in H.
  destruct (Json.scan_once L f d s) as [v1 r1| | | |]; try discriminate.
  destruct (Json.skip_ws r1) as [|x r2]; [discriminate|].
  destruct (x =? 93)%N.
  - injection H as <- _. eexists. reflexivity.
  - destruct (x =? 44)%N; [|discriminate]. now apply IH in H.
Qed.

Lemma constant_not_object (L : Json.limits) (s : str) (v : Json.value) (r : str) :
  Json.constant L s = Json.Found v r -> forall members, v <> Json.JObj members.
Proof.
  unfold Json.constant. intros H members.
  repeat match type of H with
  | match Json.keyword ?w ?v0 ?s with _ => _ end = _ =>
      let K := fresh "K" in
      destruct (Json.keyword w v0 s) eqn:K;
      [apply keyword_found in K; destruct K as [r' ->];
       injection H as <- _; discriminate|]
  end.
  unfold Json.match_number in H.
  destruct (Json.int_part _); [|discriminate].
  destruct (_ && _); [discriminate|].
  injection H as <- _. discriminate.
Qed.

(** The text of an object starts with an opening brace. *)
Lemma scan_once_object (L : Json.limits) (f d : nat) (s : str)
  (members : list (str * Json.value)) (r : str) :
  Json.scan_once L f d s = Json.Found (Json.JObj members) r ->
  exists r0, s = 123%N :: r0.
Proof.
  destruct f as [|f]; [discriminate|]. destruct s as [|c s]; [discriminate|].
  cbn [Json.scan_once].
  destruct (c =? 34)%N.
  { destruct (Json.scanstring s []); discriminate. }
  destruct (N.eqb_spec c 123) as [->|_]; [intros _; now exists s|].
  destruct (c =? 91)%N.
  { destruct d as [|d]; [discriminate|].
    destruct (Json.skip_ws s) as [|x r']; [discriminate|].
    destruct (x =? 93)%N; [discriminate|].
    intros H. apply elements_array in H. destruct H as [items H]. discriminate. }
  intros H. exfalso. exact (constant_not_object _ _ _ _ H members eq_refl).
Qed.

Lemma loads_object_open (L : Json.limits) (raw : str)
  (members : list (str * Json.value)) :
  Json.loads L raw = Val (Json.JObj members) -> In 123%N raw.
Proof.
  unfold Json.loads. destruct (is_prefix _ raw); [discriminate|].
  unfold Json.decode.
  destruct (Json.scan_once _ _ _ _) as [v rest| | | |] eqn:Hs; try discriminate.
  destruct (Json.skip_ws rest); [|discriminate].
  intros H. injection H as ->.
  apply scan_once_object in Hs. destruct Hs as [r0 Hr0].
  destruct (dropwhile_split Json.is_ws raw) as [ws [Heq _]].
  unfold Json.skip_ws in Hr0. rewrite Hr0 in Heq. rewrite Heq.
  apply in_or_app. right. now left.
Qed.

Lemma parse_no_open (L : Json.limits) (raw : str) :
  ~ In 123%N raw -> parse L raw = Val (strip raw, lit "Unknown").
Proof.
  intros Hno.
  destruct (parse_cases L raw)
    as [[parsed [p [Hl [Hf _]]]]|[[block [parsed [p [Hs _]]]]|H]].
  - exfalso. destruct (fields_inv parsed p Hf) as [members [_ [_ [-> _]]]].
    exact (Hno (loads_object_open L raw members Hl)).
  - rewrite (search_braces_no_open raw Hno) in Hs. discriminate.
  - exact H.
Qed.

(** X9: a reply without an opening brace is never taken for an answer: the
    parser returns the whole reply, trimmed, with the sentiment "Unknown",
    whatever else the reply holds (also when it is valid JSON, such as a
    quoted string or a number) and whatever the limits of the interpreter. *)
Theorem X9_parse_without_brace (L : Json.limits) (raw : str) :
  ~ In 123%N raw -> parse L raw = Val (strip raw, lit "Unknown").
Proof. exact (parse_no_open L raw). Qed.

Lemma X9_parse_without_brace_witness :
  parse Json.cpython (dq "'All good, thanks.'")
  = Val (dq "'All good, thanks.'", lit "Unknown").
Proof.
  apply (X9_parse_without_brace Json.cpython (dq "'All good, thanks.'")).
  vm_compute. intuition discriminate.
Defined.

Lemma blank_no_open (raw : str) : forallb isspace raw = true -> ~ In 123%N raw.
Proof.
  intros H Hin. rewrite forallb_forall in H. specialize (H _ Hin). discriminate.
Qed.

(** X10: a reply of whitespace only (or an empty reply) gives the empty
    summary and the sentiment "Unknown". *)
Theorem X10_parse_blank (L : Json.limits) (raw : str) :
  forallb isspace raw = true -> parse L raw = Val ([], lit "Unknown").
Proof.
  intros H. rewrite <- (strip_all_space raw H).
  apply parse_no_open. now apply blank_no_open.
Qed.

Lemma X10_parse_blank_witness :
  parse Json.cpython [32%N; 10%N; 160%N] = Val ([], lit "Unknown").
Proof.
  apply (X10_parse_blank Json.cpython [32%N; 10%N; 160%N]). reflexivity.
Defined.

Lemma parse_trimmed (L : Json.limits) (raw sm st : str) :
  parse L raw = Val (sm, st) -> Text.trimmed sm /\ Text.trimmed st.
Proof.
  intros H. unfold Text.trimmed.
  destruct (parse_cases L raw)
    as [[parsed [p [_ [Hf Hp]]]]|[[block [parsed [p [_ [_ [Hf Hp]]]]]]|Hp]];
    rewrite Hp in H.
  - injection H as ->.
    destruct (fields_inv parsed _ Hf) as [m [a [b [_ [_ [_ Heq]]]]]].
    injection Heq as -> ->. split; apply strip_idempotent.
  - injection H as ->.
    destruct (fields_inv parsed _ Hf) as [m [a [b [_ [_ [_ Heq]]]]]].
    injection Heq as -> ->. split; apply strip_idempotent.
  - injection H as <- <-. split; [apply strip_idempotent | reflexivity].
Qed.

(** X11: whatever the parser returns is free of whitespace at both ends, the
    summary and the sentiment alike. *)
Theorem X11_parse_trimmed (L : Json.limits) (raw sm st : str) :
  parse L raw = Val (sm, st) -> Text.trimmed sm /\ Text.trimmed st.
Proof. exact (parse_trimmed L raw sm st). Qed.

Lemma X11_parse_trimmed_witness :
  Text.trimmed (lit "Customer had a billing issue.")
  /\ Text.trimmed (lit "Negative").
Proof.
  apply (X11_parse_trimmed Json.cpython Sample.wrapped_reply).
  vm_compute. reflexivity.
Defined.

(** X12: the brace-delimited block is also tried when [json.loads] reads the
    whole reply but the field extraction raises on what it read (an array
    around the object, say): if [json.loads] reads the block as an object
    whose summary and sentiment are each absent or a string, the parser
    returns the fields of the block.  Both readings are those of the
    interpreter, within its recursion and digit limits. *)
Theorem X12_parse_block_after_valid_json
  (L : Json.limits) (raw block : str) (v : Json.value) (e : exn)
  (members : list (str * Json.value)) (sm st : str) :
  Json.loads L raw = Val v -> fields v = Raise e ->
  search_braces raw = Some block ->
  Json.loads L block = Val (Json.JObj members) ->
  Json.get (Json.JObj members) (lit "summary") [] = Val (Json.JStr sm) ->
  Json.get (Json.JObj members) (lit "sentiment") [] = Val (Json.JStr st) ->
  parse L raw = Val (strip sm, strip st).
Proof.
  intros Hl Hf Hs Hb Hsm Hst. unfold parse, parse_generated.
  cbn [loads_generated search_generated]. rewrite Hl. cbn [ebind].
  rewrite Hf. cbn [etry ebind]. rewrite Hs, Hb. cbn [ebind].
  rewrite (fields_strings members sm st Hsm Hst). reflexivity.
Qed.

Lemma X12_parse_block_after_valid_json_witness :
  parse Json.cpython (dq "[{'summary': 'Late order', 'sentiment': 'Negative'}]")
  = Val (strip (lit "Late order"), strip (lit "Negative")).
Proof.
  apply (X12_parse_block_after_valid_json Json.cpython
           (dq "[{'summary': 'Late order', 'sentiment': 'Negative'}]")
           (dq "{'summary': 'Late order', 'sentiment': 'Negative'}")
           (Json.JArr [Json.JObj [(lit "summary", Json.JStr (lit "Late order"));
                                  (lit "sentiment", Json.JStr (lit "Negative"))]])
           AttributeError
           [(lit "summary", Json.JStr (lit "Late order"));
            (lit "sentiment", Json.JStr (lit "Negative"))]);
    vm_compute; reflexivity.
Defined.



(** ** The summary and the sentiment of a result *)

Lemma strip_nil_blank (raw : str) : strip raw = [] -> forallb isspace raw = true.
Proof.
  intros H. destruct (strip_split raw) as [a [b [Heq [Ha Hb]]]].
  rewrite H in Heq. rewrite Heq. simpl. rewrite forallb_app. now rewrite Ha, Hb.
Qed.

(** A text without an opening brace is no answer and holds none. *)
Lemma no_open_not_chosen (L : Json.limits) (raw : str) :
  ~ In 123%N raw -> chosen L raw = None.
Proof.
  intros Hno. unfold chosen.
  rewrite (search_braces_no_open raw Hno), (answer_fields L raw).
  destruct (Json.loads L raw) as [v|e] eqn:Hl; [|reflexivity].
  destruct (fields v) as [p|e] eqn:Hf; [|reflexivity].
  exfalso. destruct (fields_inv v p Hf) as [members [_ [_ [-> _]]]].
  exact (Hno (loads_object_open L raw members Hl)).
Qed.

(** What the dispatcher returns on the model path. *)
Lemma analyze_groq (E : env) (transcript : str) (log log' : list event)
  (r : analysis) :
  analyze E transcript log = (Val r, log') -> used r = GROQ ->
  exists cl raw,
    completion E cl transcript = Val (Some raw)
    /\ (summary r, sentiment r)
       = match chosen (interpreter E) raw with
         | Some p => p
         | None => (strip raw, lit "Unknown")
         end.
Proof.
  intros Hrun Hu.
  destruct (analyze_cases E transcript log)
    as [[evs H]|[cl [raw [p [evs [Hc [Hp H]]]]]]];
    rewrite H in Hrun; injection Hrun as <- _; [discriminate|].
  exists cl, raw. split; [exact Hc|].
  rewrite parse_chosen in Hp. injection Hp as <-.
  cbn [summary sentiment]. symmetry. apply surjective_pairing.
Qed.

(** C2 as stated fails on the model path: the transcript is not empty, the
    model's reply is a JSON object without a summary, and the summary of the
    result is the empty string. *)
Lemma C2_counterexample :
  strip (lit "My order arrived late") <> []
  /\ exists log',
       analyze (Sample.online (Some Sample.no_summary_reply))
               (lit "My order arrived late") []
       = (Val (Analysis [] (lit "Positive") GROQ), log').
Proof.
  split; [vm_compute; discriminate|].
  eexists. vm_compute. reflexivity.
Qed.

(** C2, amended: for every transcript that is not empty after trimming, a
    result of the heuristic path has a non-empty summary provided the trimmed
    transcript does not begin with a sentence boundary; a result of the model
    path has an empty summary exactly when the model's reply is blank, or the
    answer read from the reply (the whole reply if it is a JSON object whose
    summary and sentiment are each absent or a string, else its
    brace-delimited block if that is one) has a summary field that is absent
    or blank; in every other case the summary of the model path is not
    empty. *)
Theorem C2_summary_nonempty
  (E : env) (transcript : str) (log log' : list event) (r : analysis) :
  strip transcript <> [] ->
  analyze E transcript log = (Val r, log') ->
  (used r = LOCAL_FALLBACK ->
   leading_boundary (strip transcript) = false -> summary r <> [])
  /\ (used r = GROQ ->
      exists cl raw,
        completion E cl transcript = Val (Some raw)
        /\ (summary r = []
            <-> strip raw = []
                \/ exists st, chosen (interpreter E) raw = Some ([], st))).
Proof.
  intros Hne Hrun. split.
  - destruct (analyze_cases E transcript log)
      as [[evs H]|[cl [raw [p [evs [Hc [Hp H]]]]]]];
      rewrite H in Hrun; injection Hrun as <- _; [|discriminate].
    intros _ Hlead. unfold heuristic_result, local_fallback. simpl.
    apply summarize_nonempty; try assumption.
    intros c r0 Heq. exact (strip_head transcript c r0 Heq).
  - intros Hu. destruct (analyze_groq E transcript log log' r Hrun Hu)
      as [cl [raw [Hc Hr]]].
    exists cl, raw. split; [exact Hc|]. split.
    + intros Hs. destruct (chosen (interpreter E) raw) as [[sm st]|].
      * right. exists st. injection Hr as Hsm _.
        rewrite Hs in Hsm. now subst sm.
      * left. injection Hr as Hsm _. now rewrite Hs in Hsm.
    + intros [Hb|[st Hch]].
      * rewrite (no_open_not_chosen (interpreter E) raw
                   (blank_no_open raw (strip_nil_blank raw Hb))) in Hr.
        injection Hr as Hsm _. now rewrite Hb in Hsm.
      * rewrite Hch in Hr. now injection Hr as -> _.
Qed.

Lemma C2_summary_nonempty_witness :
  exists cl raw,
    completion (Sample.online (Some Sample.strict_reply)) cl
      (lit "My order arrived late. Please help.") = Val (Some raw)
    /\ (lit "S" = []
        <-> strip raw = []
            \/ exists st, chosen Json.cpython raw = Some ([], st)).
Proof.
  apply (proj2 (C2_summary_nonempty
                  (Sample.online (Some Sample.strict_reply))
                  (lit "My order arrived late. Please help.") []
                  [GroqConstructed (lit "key");
                   CompletionRequested (lit "My order arrived late. Please help.")]
                  (Analysis (lit "S") (lit "Positive") GROQ)
                  ltac:(vm_compute; discriminate)
                  ltac:(vm_compute; reflexivity))).
  reflexivity.
Defined.

(** C3 as stated fails on the model path: the reply is a JSON object whose
    sentiment is "Mixed", and the result carries it unchanged. *)
Lemma C3_counterexample :
  exists log',
    analyze (Sample.online (Some Sample.mixed_reply))
            (lit "My order arrived late") []
    = (Val (Analysis (lit "S") (lit "Mixed") GROQ), log')
    /\ ~ In (lit "Mixed")
            [lit "Positive"; lit "Neutral"; lit "Negative"; lit "Unknown"].
Proof.
  eexists. split; [vm_compute; reflexivity|].
  vm_compute. intros [H|[H|[H|[H|[]]]]]; discriminate.
Qed.

(** C3, amended: for every transcript, a result of the heuristic path has a
    sentiment among Negative, Positive and Neutral.  A result of the model
    path has the sentiment of the answer read from the model's reply: when
    the whole reply is a JSON object whose summary and sentiment are each
    absent or a string, the sentiment field of that object trimmed of
    whitespace (the empty string when absent); otherwise, when the
    brace-delimited block of the reply is such an object, the sentiment field
    of the block, trimmed; and otherwise "Unknown".  The text of the field is
    not checked against the four values. *)
Theorem C3_sentiment_values
  (E : env) (transcript : str) (log log' : list event) (r : analysis) :
  analyze E transcript log = (Val r, log') ->
  (used r = LOCAL_FALLBACK ->
   In (sentiment r) [lit "Negative"; lit "Positive"; lit "Neutral"])
  /\ (used r = GROQ ->
      exists cl raw,
        completion E cl transcript = Val (Some raw)
        /\ sentiment r
           = match answer (interpreter E) raw with
             | Some p => snd p
             | None =>
                 match search_braces raw with
                 | Some block =>
                     match answer (interpreter E) block with
                     | Some p => snd p
                     | None => lit "Unknown"
                     end
                 | None => lit "Unknown"
                 end
             end).
Proof.
  intros Hrun. split.
  - destruct (analyze_cases E transcript log)
      as [[evs H]|[cl [raw [p [evs [Hc [Hp H]]]]]]];
      rewrite H in Hrun; injection Hrun as <- _; [|discriminate].
    intros _. apply classify_values.
  - intros Hu. destruct (analyze_groq E transcript log log' r Hrun Hu)
      as [cl [raw [Hc Hr]]].
    exists cl, raw. split; [exact Hc|].
    unfold chosen in Hr.
    destruct (answer (interpreter E) raw) as [p|].
    + now rewrite <- Hr.
    + destruct (search_braces raw) as [block|]; [|now injection Hr as _ ->].
      destruct (answer (interpreter E) block) as [p|].
      * now rewrite <- Hr.
      * now injection Hr as _ ->.
Qed.

Lemma C3_sentiment_values_witness :
  In (sentiment (heuristic_result (lit "My order arrived late")))
     [lit "Negative"; lit "Positive"; lit "Neutral"].
Proof.
  apply (proj1 (C3_sentiment_values Sample.offline (lit "My order arrived late")
                  [] [] (heuristic_result (lit "My order arrived late"))
                  ltac:(vm_compute; reflexivity))).
  reflexivity.
Defined.

(** The two refusals of the interpreter, on an integer of 4301 digits and on
    an object nested one level deeper than the recursion limit admits; with
    them the parser falls through. *)
Example loads_integer_limit :
  Json.loads Json.cpython (dq "{'n': " ++ repeat 49%N 4300 ++ lit "}")
  = Val (Json.JObj [(lit "n", Json.JNum (repeat 49%N 4300))])
  /\ Json.loads Json.cpython (dq "{'n': " ++ repeat 49%N 4301 ++ lit "}")
     = Raise ValueError
  /\ parse Json.cpython
       (dq "{'summary': 'S', 'sentiment': 'Positive', 'n': "
        ++ repeat 49%N 4301 ++ lit "}")
     = Val (dq "{'summary': 'S', 'sentiment': 'Positive', 'n': "
            ++ repeat 49%N 4301 ++ lit "}", lit "Unknown").
Proof. repeat split; vm_compute; reflexivity. Qed.

Example loads_recursion_limit :
  Json.loads (Json.Limits 2 4300) (lit "[[]]") = Val (Json.JArr [Json.JArr []])
  /\ Json.loads (Json.Limits 2 4300) (lit "[[[]]]") = Raise RecursionError
  /\ Json.loads (Json.Limits 2 4300) (dq "[{'a': []}]") = Raise RecursionError.
Proof. repeat split; vm_compute; reflexivity. Qed.

(** ** The client factory and the remote call *)

Lemma online_key (E : env) :
  use_offline E = false ->
  GROQ_AVAILABLE E = true
  /\ exists c r, GROQ_API_KEY E = Some (c :: r).
Proof.
  unfold use_offline. intros H. apply orb_false_iff in H. destruct H as [Ha Hk].
  apply negb_false_iff in Ha. apply negb_false_iff in Hk. split; [exact Ha|].
  destruct (GROQ_API_KEY E) as [[|c r]|]; try discriminate. now exists c, r.
Qed.

(** X13: the client factory never raises.  Without the library or without a
    key it returns no client and does not call the constructor; otherwise it
    calls the constructor once, with the configured non-empty key, and returns
    the client, or no client when the constructor raises. *)
Theorem X13_make_groq_client (E : env) (log : list event) :
  (use_offline E = true -> make_groq_client E log = (Val None, log))
  /\ (use_offline E = false ->
      exists key,
        GROQ_API_KEY E = Some key /\ key <> []
        /\ make_groq_client E log
           = (Val (match Groq E key with Val c => Some c | Raise _ => None end),
              log ++ [GroqConstructed key])).
Proof.
  split.
  - unfold use_offline, make_groq_client. intros ->. reflexivity.
  - intros Hoff. destruct (online_key E Hoff) as [_ [c [r Hk]]].
    exists (c :: r). split; [exact Hk|]. split; [discriminate|].
    unfold make_groq_client. unfold use_offline in Hoff. rewrite Hoff, Hk.
    unfold try_except, bind, emit, lift, ret.
    destruct (Groq E (c :: r)); reflexivity.
Qed.

Lemma X13_make_groq_client_witness :
  make_groq_client Sample.offline [] = (Val None, []).
Proof. apply (proj1 (X13_make_groq_client Sample.offline [])). reflexivity. Defined.

(** X14: [call_groq_for_json] sends exactly one request, whatever comes back.
    It raises what the request raises, and [TypeError] when the reply holds
    no text; on a text reply it returns what the parser makes of it, together
    with the reply unchanged. *)
Theorem X14_call_groq_for_json
  (E : env) (c : client) (transcript : str) (log : list event) :
  exists outcome,
    call_groq_for_json E c transcript log
    = (outcome, log ++ [CompletionRequested transcript])
    /\ match completion E c transcript with
       | Raise e => outcome = Raise e
       | Val None => outcome = Raise TypeError
       | Val (Some raw) =>
           exists p, parse (interpreter E) raw = Val p
                     /\ outcome = Val (fst p, snd p, Some raw)
       end.
Proof.
  unfold call_groq_for_json, bind, emit, lift, ret.
  destruct (completion E c transcript) as [[raw|]|e].
  - destruct (parse_total (interpreter E) raw) as [p Hp].
    unfold parse in Hp. rewrite Hp.
    eexists. split; [reflexivity|]. now exists p.
  - eexists. split; reflexivity.
  - eexists. split; reflexivity.
Qed.

(** ** The runs of the dispatcher *)

(** The four runs of the dispatcher. *)
Lemma analyze_trace (E : env) (transcript : str) (log : list event) :
  (use_offline E = true
   /\ analyze E transcript log = (Val (heuristic_result transcript), log))
  \/ (exists key,
        use_offline E = false /\ GROQ_API_KEY E = Some key
        /\ ((exists e,
               Groq E key = Raise e
               /\ analyze E transcript log
                  = (Val (heuristic_result transcript),
                     log ++ [GroqConstructed key; Warned ClientNotAvailable]))
            \/ (exists cl e,
                  Groq E key = Val cl
                  /\ (completion E cl transcript = Raise e
                      \/ (completion E cl transcript = Val None /\ e = TypeError))
                  /\ analyze E transcript log
                     = (Val (heuristic_result transcript),
                        log ++ [GroqConstructed key;
                                CompletionRequested transcript;
                                Warned (ErrorCallingGroq e)]))
            \/ (exists cl raw p,
                  Groq E key = Val cl
                  /\ completion E cl transcript = Val (Some raw)
                  /\ parse (interpreter E) raw = Val p
                  /\ analyze E transcript log
                     = (Val (Analysis (fst p) (snd p) GROQ),
                        log ++ [GroqConstructed key;
                                CompletionRequested transcript])))).
Proof.
  destruct (use_offline E) eqn:Hoff.
  - left. split; [reflexivity|]. now apply analyze_offline.
  - right. destruct (online_key E Hoff) as [_ [c [r Hk]]].
    exists (c :: r). split; [reflexivity|]. split; [exact Hk|].
    unfold analyze, make_groq_client. rewrite Hoff.
    unfold use_offline in Hoff. rewrite Hoff, Hk.
    unfold bind, try_except, emit, lift, ret, heuristic, call_groq_for_json.
    destruct (Groq E (c :: r)) as [cl|e].
    + right. unfold bind, emit, lift, ret.
      destruct (completion E cl transcript) as [[raw|]|e] eqn:Hc.
      * right. destruct (parse_total (interpreter E) raw) as [p Hp].
        exists cl, raw, p. split; [reflexivity|]. split; [exact Hc|].
        split; [exact Hp|]. unfold parse in Hp. rewrite Hp.
        rewrite <- app_assoc. reflexivity.
      * left. exists cl, TypeError. split; [reflexivity|].
        split; [right; split; [exact Hc | reflexivity]|].
        cbn. rewrite <- !app_assoc. reflexivity.
      * left. exists cl, e. split; [reflexivity|]. split; [left; exact Hc|].
        rewrite <- !app_assoc. reflexivity.
    + left. exists e. split; [reflexivity|].
      rewrite <- app_assoc. reflexivity.
Qed.

(** X15: a run of the dispatcher is one of four, and none of them repeats a
    step: offline, nothing happens outside and the result is the heuristic
    one; the constructor raises, and after one warning the result is the
    heuristic one, no request having been sent; the one request raises or
    brings no text, and after one warning that carries the exception the
    result is the heuristic one; the one request brings a text, and the
    result is what the parser makes of it, without a warning. *)
Theorem X15_analyze_runs (E : env) (transcript : str) (log : list event) :
  (use_offline E = true
   /\ analyze E transcript log = (Val (heuristic_result transcript), log))
  \/ (exists key,
        use_offline E = false /\ GROQ_API_KEY E = Some key
        /\ ((exists e,
               Groq E key = Raise e
               /\ analyze E transcript log
                  = (Val (heuristic_result transcript),
                     log ++ [GroqConstructed key; Warned ClientNotAvailable]))
            \/ (exists cl e,
                  Groq E key = Val cl
                  /\ (completion E cl transcript = Raise e
                      \/ (completion E cl transcript = Val None /\ e = TypeError))
                  /\ analyze E transcript log
                     = (Val (heuristic_result transcript),
                        log ++ [GroqConstructed key;
                                CompletionRequested transcript;
                                Warned (ErrorCallingGroq e)]))
            \/ (exists cl raw p,
                  Groq E key = Val cl
                  /\ completion E cl transcript = Val (Some raw)
                  /\ parse (interpreter E) raw = Val p
                  /\ analyze E transcript log
                     = (Val (Analysis (fst p) (snd p) GROQ),
                        log ++ [GroqConstructed key;
                                CompletionRequested transcript])))).
Proof. exact (analyze_trace E transcript log). Qed.

(** X16: the result is the model's exactly when the library and a key are
    there, the constructor returns a client and the request brings a text; in
    every other case it is the heuristic one. *)
Theorem X16_source_groq
  (E : env) (transcript : str) (log log' : list event) (r : analysis) :
  analyze E transcript log = (Val r, log') ->
  (used r = GROQ
   <-> use_offline E = false
       /\ exists key cl raw,
            GROQ_API_KEY E = Some key /\ Groq E key = Val cl
            /\ completion E cl transcript = Val (Some raw)).
Proof.
  intros Hrun.
  destruct (analyze_trace E transcript log)
    as [[Hoff H]|[key [Hoff [Hk [[e [Hg H]]|[[cl [e [Hg [Hc H]]]]|[cl [raw [p [Hg [Hc [_ H]]]]]]]]]]]];
    rewrite H in Hrun; injection Hrun as <- _; split.
  - discriminate.
  - intros [Hoff' _]. congruence.
  - discriminate.
  - intros [_ [key' [cl [raw [Hk' [Hg' _]]]]]]. congruence.
  - discriminate.
  - intros [_ [key' [cl' [raw [Hk' [Hg' Hc']]]]]].
    assert (key' = key) by congruence. subst key'.
    assert (cl' = cl) by congruence. subst cl'.
    destruct Hc as [Hc|[Hc _]]; congruence.
  - intros _. split; [exact Hoff|]. now exists key, cl, raw.
  - reflexivity.
Qed.

Lemma X16_source_groq_witness :
  used (Analysis (lit "S") (lit "Positive") GROQ) = GROQ
  <-> use_offline (Sample.online (Some Sample.strict_reply)) = false
      /\ exists key cl raw,
           GROQ_API_KEY (Sample.online (Some Sample.strict_reply)) = Some key
           /\ Groq (Sample.online (Some Sample.strict_reply)) key = Val cl
           /\ completion (Sample.online (Some Sample.strict_reply)) cl
                (lit "My order arrived late") = Val (Some raw).
Proof.
  apply (X16_source_groq (Sample.online (Some Sample.strict_reply))
           (lit "My order arrived late") []
           [GroqConstructed (lit "key");
            CompletionRequested (lit "My order arrived late")]).
  vm_compute. reflexivity.
Defined.

(** X17: a warning is shown exactly when the model was tried and the result is
    the heuristic one all the same; offline the fallback is silent. *)
Theorem X17_warning
  (E : env) (transcript : str) (log log' : list event) (r : analysis) :
  analyze E transcript log = (Val r, log') ->
  ((exists evs w, log' = log ++ evs /\ In (Warned w) evs)
   <-> use_offline E = false /\ used r = LOCAL_FALLBACK).
Proof.
  intros Hrun.
  destruct (analyze_trace E transcript log)
    as [[Hoff H]|[key [Hoff [Hk [[e [Hg H]]|[[cl [e [Hg [Hc H]]]]|[cl [raw [p [Hg [Hc [_ H]]]]]]]]]]]];
    rewrite H in Hrun; injection Hrun as <- <-; split.
  - intros [evs [w [Heq Hin]]].
    rewrite <- (app_nil_r log) in Heq at 1. apply app_inv_head in Heq.
    subst evs. destruct Hin.
  - intros [Hoff' _]. congruence.
  - intros _. now split.
  - intros _. eexists. exists ClientNotAvailable.
    split; [reflexivity|]. right. now left.
  - intros _. now split.
  - intros _. eexists. exists (ErrorCallingGroq e).
    split; [reflexivity|]. right. right. now left.
  - intros [evs [w [Heq Hin]]]. apply app_inv_head in Heq. subst evs.
    destruct Hin as [Hin|[Hin|[]]]; discriminate.
  - intros [_ Hu]. discriminate.
Qed.

Lemma X17_warning_witness :
  (exists evs w,
      [GroqConstructed (lit "key"); CompletionRequested (lit "Hello");
       Warned (ErrorCallingGroq (RemoteError (lit "timeout")))] = [] ++ evs
      /\ In (Warned w) evs)
  <-> use_offline Sample.unreachable = false
      /\ used (heuristic_result (lit "Hello")) = LOCAL_FALLBACK.
Proof.
  apply (X17_warning Sample.unreachable (lit "Hello") []).
  vm_compute. reflexivity.
Defined.

Lemma classify_trimmed (s : str) : Text.trimmed (classify s).
Proof.
  unfold Text.trimmed.
  destruct (classify_values s) as [<-|[<-|[<-|[]]]]; reflexivity.
Qed.

(** X18: every result of the dispatcher, from the model or from the heuristic,
    has a summary and a sentiment free of whitespace at both ends. *)
Theorem X18_result_trimmed
  (E : env) (transcript : str) (log log' : list event) (r : analysis) :
  analyze E transcript log = (Val r, log') ->
  Text.trimmed (summary r) /\ Text.trimmed (sentiment r).
Proof.
  intros Hrun.
  destruct (analyze_cases E transcript log)
    as [[evs H]|[cl [raw [p [evs [_ [Hp H]]]]]]];
    rewrite H in Hrun; injection Hrun as <- _.
  - unfold heuristic_result, local_fallback. cbn [summary sentiment fst snd].
    split; [|apply classify_trimmed].
    unfold Text.trimmed. rewrite summarize_before_boundary.
    apply strip_idempotent.
  - cbn [summary sentiment]. destruct p as [sm st].
    exact (parse_trimmed (interpreter E) raw sm st Hp).
Qed.

Lemma X18_result_trimmed_witness :
  Text.trimmed (summary (heuristic_result (lit "  All good. Bye ")))
  /\ Text.trimmed (sentiment (heuristic_result (lit "  All good. Bye "))).
Proof.
  apply (X18_result_trimmed Sample.offline (lit "  All good. Bye ") [] []).
  vm_compute. reflexivity.
Defined.

(** ** The Analyze handler *)

(** X19: a click with a blank transcript (empty, or whitespace only) shows the
    warning and does nothing else: no analysis, no client, no request, and
    the record file is not touched, not even created. *)
Theorem X19_blank_click
  (E : env) (refusal : option exn) (transcript : str) (csv : Handler.file)
  (log : list event) :
  forallb isspace transcript = true ->
  Handler.on_analyze E refusal transcript csv log
  = (Val (csv, Handler.PleaseTypeTranscript), log).
Proof.
  intros H. unfold Handler.on_analyze.
  now rewrite (strip_all_space transcript H).
Qed.

Lemma X19_blank_click_witness :
  Handler.on_analyze (Sample.online (Some Sample.strict_reply)) (Some OSError)
    (lit "   ") None []
  = (Val (None, Handler.PleaseTypeTranscript), []).
Proof.
  apply (X19_blank_click (Sample.online (Some Sample.strict_reply))
           (Some OSError) (lit "   ")).
  reflexivity.
Defined.



Lemma session_cons (E : env) (refusal : option exn) (t : str)
  (rest : list (env * option exn * str)) (csv : Handler.file)
  (log : list event) :
  Handler.session ((E, refusal, t) :: rest) csv log
  = match Handler.on_analyze E refusal t csv log with
    | (Val now_, l1) =>
        match Handler.session rest (fst now_) l1 with
        | (Val later, l2) => (Val (fst later, snd now_ :: snd later), l2)
        | (Raise e, l2) => (Raise e, l2)
        end
    | (Raise e, l1) => (Raise e, l1)
    end.
Proof.
  cbn [Handler.session]. unfold bind, ret.
  destruct (Handler.on_analyze E refusal t csv log) as [[now_|e] l1];
    [|reflexivity].
  destruct (Handler.session rest (fst now_) l1) as [[later|e] l2]; reflexivity.
Qed.

Lemma on_analyze_blank (E : env) (refusal : option exn) (t : str)
  (csv : Handler.file) (log : list event) :
  Handler.typed t = false ->
  Handler.on_analyze E refusal t csv log
  = (Val (csv, Handler.PleaseTypeTranscript), log).
Proof.
  unfold Handler.typed, Handler.on_analyze.
  destruct (strip t); [reflexivity | discriminate].
Qed.

(** A click with a typed transcript: one analysis, then one write. *)
Lemma on_analyze_typed (E : env) (refusal : option exn) (t : str)
  (csv : Handler.file) (log : list event) :
  Handler.typed t = true ->
  exists r evs,
    analyze E t log = (Val r, log ++ evs)
    /\ length (filter Handler.is_request evs) <= 1
    /\ Handler.on_analyze E refusal t csv log
       = (match Handler.to_csv refusal csv
                  (Handler.Row t (summary r) (sentiment r)) with
          | Val csv1 =>
              Val (csv1, Handler.Report t (summary r) (sentiment r) (used r))
          | Raise e => Raise e
          end, log ++ evs).
Proof.
  unfold Handler.typed, Handler.on_analyze.
  destruct (strip t); [discriminate|]. intros _.
  destruct (analyze_trace E t log)
    as [[_ H]|[key [_ [_ [[e [_ H]]|[[cl [e [_ [_ H]]]]|[cl [raw [p [_ [_ [_ H]]]]]]]]]]]];
    eexists; eexists;
    (split; [rewrite H; try reflexivity; now rewrite app_nil_r|]);
    (split; [simpl; lia|]);
    unfold bind, lift, ret; rewrite H;
    destruct (Handler.to_csv _ _ _); rewrite ?app_nil_r; reflexivity.
Qed.





(** X22: the heuristic summary is empty exactly when the transcript is blank
    or its trimmed text begins with a sentence boundary. *)
Theorem X22_summary_empty (transcript : str) :
  fst (local_fallback transcript) = []
  <-> strip transcript = [] \/ leading_boundary (strip transcript) = true.
Proof.
  unfold local_fallback. cbn [fst]. split.
  - intros H. destruct (strip transcript) as [|c r] eqn:Hs; [now left|]. right.
    destruct (leading_boundary (c :: r)) eqn:Hl; [reflexivity|]. exfalso.
    apply (summarize_nonempty (c :: r)); try assumption; [discriminate|].
    intros c' r' Heq. injection Heq as <- <-.
    exact (strip_head transcript c r Hs).
  - rewrite summarize_before_boundary. intros [->|H]; [reflexivity|].
    destruct (strip transcript) as [|c r]; [reflexivity|].
    simpl in H. simpl. now rewrite H.
Qed.

Lemma requests_app (a b : list event) :
  length (filter Handler.is_request (a ++ b))
  = length (filter Handler.is_request a) + length (filter Handler.is_request b).
Proof. now rewrite filter_app, length_app. Qed.

Lemma session_requests (clicks : list (env * option exn * str)) :
  forall (csv : Handler.file) (log : list event),
  exists out evs,
    Handler.session clicks csv log = (out, log ++ evs)
    /\ length (filter Handler.is_request evs)
       <= length (filter Handler.typed (map snd clicks)).
Proof.
  induction clicks as [|[[E refusal] t] rest IH]; intros csv log.
  - exists (Val (csv, [])), []. split; [now rewrite app_nil_r | reflexivity].
  - rewrite session_cons. cbn [map filter fst snd].
    destruct (Handler.typed t) eqn:Ht.
    + destruct (on_analyze_typed E refusal t csv log Ht) as [r [evs1 [_ [Hn1 Hc]]]].
      rewrite Hc.
      destruct (Handler.to_csv refusal csv
                  (Handler.Row t (summary r) (sentiment r))) as [csv1|e].
      * cbn [fst snd].
        destruct (IH csv1 (log ++ evs1)) as [out [evs2 [Hrun Hn2]]].
        rewrite Hrun.
        destruct out as [later|e]; eexists; exists (evs1 ++ evs2);
          (split; [now rewrite app_assoc | rewrite requests_app; simpl; lia]).
      * eexists. exists evs1. split; [reflexivity | simpl; lia].
    + rewrite (on_analyze_blank E refusal t csv log Ht). cbn [fst snd].
      destruct (IH csv log) as [out [evs [Hrun Hn]]]. rewrite Hrun.
      destruct out as [later|e]; eexists; exists evs;
        (split; [reflexivity | exact Hn]).
Qed.

(** X23: a run of the page, whether it answers every click or stops at a
    failed write, only adds to the log, and sends at most one request per
    click whose transcript was not blank: a blank click sends none, and no
    click is retried. *)
Theorem X23_session_requests
  (clicks : list (env * option exn * str)) (csv : Handler.file)
  (log : list event) :
  exists out evs,
    Handler.session clicks csv log = (out, log ++ evs)
    /\ length (filter Handler.is_request evs)
       <= length (filter Handler.typed (map snd clicks)).
Proof. exact (session_requests clicks csv log). Qed.

Lemma encodable_app (a b : str) :
  Handler.encodable (a ++ b) = Handler.encodable a && Handler.encodable b.
Proof. apply forallb_app. Qed.

Lemma heuristic_summary_prefix (transcript : str) :
  exists rest, strip transcript = fst (local_fallback transcript) ++ rest.
Proof.
  unfold local_fallback. cbn [fst]. rewrite summarize_before_boundary.
  destruct (before_boundary_split (strip transcript)) as [rest Hrest].
  destruct (before_boundary (strip transcript)) as [|c x] eqn:Hbb.
  - exists (strip transcript). reflexivity.
  - assert (Hc : isspace c = false).
    { destruct (strip transcript) as [|c' r'] eqn:Hs; [discriminate|].
      simpl in Hrest. injection Hrest as -> _.
      exact (strip_head transcript c r' Hs). }
    change (strip (c :: x)) with (rstrip (lstrip (c :: x))).
    rewrite (lstrip_head c x Hc).
    destruct (rstrip_split (c :: x)) as [ws [Hws _]].
    exists (ws ++ rest). rewrite Hrest. rewrite Hws at 1.
    now rewrite <- app_assoc.
Qed.

(** The row that the heuristic produces for a transcript that UTF-8 can
    encode can be encoded too. *)
Lemma heuristic_row_encodable (transcript : str) :
  Handler.encodable transcript = true ->
  Handler.encodable_line
    (Handler.Row transcript (summary (heuristic_result transcript))
       (sentiment (heuristic_result transcript))) = true.
Proof.
  intros Ht. unfold heuristic_result. cbv zeta.
  cbn [summary sentiment Handler.encodable_line]. rewrite Ht. cbn [andb].
  apply andb_true_iff. split.
  - destruct (strip_split transcript) as [a [b [Heq _]]].
    destruct (heuristic_summary_prefix transcript) as [rest Hrest].
    rewrite Heq, Hrest in Ht. rewrite !encodable_app in Ht.
    apply andb_true_iff in Ht. destruct Ht as [_ Ht].
    apply andb_true_iff in Ht. destruct Ht as [Ht _].
    apply andb_true_iff in Ht. tauto.
  - unfold local_fallback. cbn [snd].
    destruct (classify_values (strip transcript)) as [<-|[<-|[<-|[]]]];
      reflexivity.
Qed.

Lemma offline_session (clicks : list (env * option exn * str)) :
  Forall (fun c => use_offline (fst (fst c)) = true
                   /\ snd (fst c) = None
                   /\ Handler.encodable (snd c) = true) clicks ->
  forall (csv : Handler.file) (log : list event),
  exists csv' shown, Handler.session clicks csv log = (Val (csv', shown), log).
Proof.
  induction 1 as [|[[E refusal] t] rest [Hoff [Href Henc]] _ IH]; intros csv log.
  - now exists csv, [].
  - cbn [fst snd] in Hoff, Href, Henc. subst refusal. rewrite session_cons.
    assert (Hnow : exists now_,
               Handler.on_analyze E None t csv log = (Val now_, log)).
    { unfold Handler.on_analyze. destruct (strip t); [eexists; reflexivity|].
      unfold bind, lift, ret. rewrite (analyze_offline E t log Hoff).
      unfold Handler.to_csv. rewrite (heuristic_row_encodable t Henc).
      eexists. reflexivity. }
    destruct Hnow as [now_ Hnow]. rewrite Hnow.
    destruct (IH (fst now_) log) as [csv' [shown Hrun]]. rewrite Hrun.
    eexists. eexists. reflexivity.
Qed.

(** X25: with the heuristic alone a run of the page cannot fail on its own
    data: when every click is offline, no write is refused from outside and
    every transcript can be encoded in UTF-8, every click is answered and
    nothing is added to the log (no client, no request, no warning).  The
    summary is a part of the transcript and the sentiment one of three fixed
    words, so the row can always be encoded. *)
Theorem X25_offline_session
  (clicks : list (env * option exn * str)) (csv : Handler.file)
  (log : list event) :
  Forall (fun c => use_offline (fst (fst c)) = true
                   /\ snd (fst c) = None
                   /\ Handler.encodable (snd c) = true) clicks ->
  exists csv' shown, Handler.session clicks csv log = (Val (csv', shown), log).
Proof. intros H. exact (offline_session clicks H csv log). Qed.

Lemma X25_offline_session_witness :
  exists csv' shown,
    Handler.session [(Sample.offline, None, lit " ");
                     (Sample.offline, None, lit " All good. Bye ")] None []
    = (Val (csv', shown), []).
Proof.
  apply (X25_offline_session
           [(Sample.offline, None, lit " ");
            (Sample.offline, None, lit " All good. Bye ")] None []).
  repeat constructor.
Defined.

(** A reply whose summary decodes to a lone surrogate makes the click raise
    at the write, after the analysis went through. *)
Example surrogate_summary_click :
  Handler.on_analyze
    (Sample.online (Some (dq "{'summary': '\ud83d', 'sentiment': 'Positive'}")))
    None (lit "Hello") None []
  = (Raise UnicodeEncodeError,
     [GroqConstructed (lit "key"); CompletionRequested (lit "Hello")]).
Proof. vm_compute. reflexivity. Qed.
